(** * create_results_and_steps.py: results, steps and status aggregation

    A shallow embedding of the SystemLink TestMonitor example
    [Python Examples/TestMonitor/CreateResultsAndSteps/create_results_and_steps.py]
    and the properties of its result/step hierarchy.

    Conventions of the embedding.
    - Python dicts with a fixed key set are records; a key whose value may be
      [None] is an [option].
    - Python floats are idealised as exact rationals ([Q]): the arithmetic of
      [measure_power] and the limit comparison are the exact ones, rounding is
      not modelled.
    - The global random generator, the remote store and standard output are
      the components of an explicit [World]; every function of the script
      that touches one of them lives in the monad [M] (state plus
      exceptions). *)

From Stdlib Require Import List String Bool Arith ZArith QArith Lia Lqa.
Import ListNotations.

Local Close Scope Q_scope.
Local Open Scope string_scope.
Local Open Scope list_scope.

(** ** Wire records *)

(** Identities handed out by the store. *)
Definition Id := nat.

(** [{"statusType": ..., "statusName": ...}] *)
Record Status := mkStatus {
  statusType : string;
  statusName : string
}.

(** [{"name": ..., "value": ...}], an input or output of a step. *)
Record NamedValue := mkNamedValue {
  nv_name : string;
  nv_value : Q
}.

(** One entry of a step's ["parameters"] list.  [str(...)] of the numbers is
    not rendered: the field keeps the number. *)
Record Measurement := mkMeasurement {
  p_name : string;
  p_status : string;
  p_measurement : Q;
  p_units : string;
  p_nominalValue : option Q;
  p_lowLimit : Q;
  p_highLimit : Q;
  p_comparisonType : string
}.

(** [{"text": ..., "parameters": [...]}] *)
Record StepData := mkStepData {
  text : string;
  parameters : list Measurement
}.

Record Step := mkStep {
  stepId : option Id;
  parentId : option Id;
  resultId : option Id;
  children : option (list Id);
  data : option StepData;
  dataModel : string;
  name : string;
  startedAt : option string;
  status : Status;
  stepType : string;
  totalTimeInSeconds : Q;
  inputs : option (list NamedValue);
  outputs : option (list NamedValue)
}.

(** The result dict of [main]; ["id"] is absent before the store assigns it. *)
Record Result := mkResult {
  r_id : option Id;
  programName : string;
  r_status : Status;
  systemId : option string;
  hostName : option string;
  properties : option (list (string * string));
  serialNumber : string;
  operator : string;
  partNumber : string;
  fileIds : option (list string);
  r_startedAt : string;
  r_totalTimeInSeconds : Q
}.

(** In-place assignments [step[key] = value]. *)
Definition set_stepId (v : option Id) (s : Step) : Step :=
  mkStep v (parentId s) (resultId s) (children s) (data s) (dataModel s)
         (name s) (startedAt s) (status s) (stepType s)
         (totalTimeInSeconds s) (inputs s) (outputs s).

Definition set_parentId (v : option Id) (s : Step) : Step :=
  mkStep (stepId s) v (resultId s) (children s) (data s) (dataModel s)
         (name s) (startedAt s) (status s) (stepType s)
         (totalTimeInSeconds s) (inputs s) (outputs s).

Definition set_resultId (v : option Id) (s : Step) : Step :=
  mkStep (stepId s) (parentId s) v (children s) (data s) (dataModel s)
         (name s) (startedAt s) (status s) (stepType s)
         (totalTimeInSeconds s) (inputs s) (outputs s).

Definition set_status (v : Status) (s : Step) : Step :=
  mkStep (stepId s) (parentId s) (resultId s) (children s) (data s)
         (dataModel s) (name s) (startedAt s) v (stepType s)
         (totalTimeInSeconds s) (inputs s) (outputs s).

Definition set_r_id (v : option Id) (r : Result) : Result :=
  mkResult v (programName r) (r_status r) (systemId r) (hostName r)
           (properties r) (serialNumber r) (operator r) (partNumber r)
           (fileIds r) (r_startedAt r) (r_totalTimeInSeconds r).

(** The three status dicts the script writes. *)
Definition RUNNING : Status := mkStatus "RUNNING" "Running".
Definition PASSED : Status := mkStatus "PASSED" "Passed".
Definition FAILED : Status := mkStatus "FAILED" "Failed".

(** ** The world: random generator, remote store, standard output *)

(** One call of the store client, with what was sent and what came back
    ([None]: the store rejected the payload). *)
Inductive Exchange :=
| CreateResults (sent : list Result) (reply : option (list Result))
| UpdateResults (sent : list Result) (reply : option (list Result))
| CreateSteps (sent : list Step) (reply : option (list Step))
| UpdateSteps (sent : list Step) (reply : option (list Step)).

Record World := mkWorld {
  uniform_draws : nat -> Q;   (* the values [random.uniform(0, 1)] returns, in order *)
  drawn : nat;                (* how many of them were consumed *)
  next_id : Id;               (* the next identity the store assigns *)
  exchanges : list Exchange;  (* the store calls made so far, oldest first *)
  printed : list string       (* lines written by [print], oldest first *)
}.

Inductive Outcome (A : Type) :=
| Returns (a : A)
| Raises (e : string).
Arguments Returns {A} a.
Arguments Raises {A} e.

(** Computations of the script: they read and change the world and either
    return a value or raise; the world survives an exception. *)
Definition M (A : Type) : Type := World -> Outcome A * World.

Definition ret {A} (a : A) : M A := fun w => (Returns a, w).

Definition bind {A B} (m : M A) (k : A -> M B) : M B :=
  fun w =>
    match m w with
    | (Returns a, w') => k a w'
    | (Raises e, w') => (Raises e, w')
    end.

Definition raise {A} (e : string) : M A := fun w => (Raises e, w).

Notation "x <- m ;; k" := (bind m (fun x => k))
  (at level 61, m at next level, right associativity).
Notation "' pat <- m ;; k" := (bind m (fun x => match x with pat => k end))
  (at level 61, pat pattern, m at next level, right associativity).

(** [xs[0]] *)
Definition first {A} (xs : list A) : M A :=
  match xs with
  | x :: _ => ret x
  | [] => raise "IndexError"
  end.

(** [for x in xs: s = body(x, s)] *)
Fixpoint for_each {A S} (xs : list A) (body : A -> S -> M S) (s : S) : M S :=
  match xs with
  | [] => ret s
  | x :: rest => s' <- body x s ;; for_each rest body s'
  end.

(** [range(lo, hi)] *)
Definition range (lo hi : Z) : list Z :=
  map (fun i => (lo + Z.of_nat i)%Z) (seq 0 (Z.to_nat (hi - lo))).

(** [random.uniform(0, 1)]: the next value of the generator. *)
Definition random_uniform_0_1 : M Q :=
  fun w =>
    (Returns (uniform_draws w (drawn w)),
     mkWorld (uniform_draws w) (S (drawn w)) (next_id w) (exchanges w)
             (printed w)).

Definition print (line : string) : M unit :=
  fun w =>
    (Returns tt,
     mkWorld (uniform_draws w) (drawn w) (next_id w) (exchanges w)
             (printed w ++ [line])).

(** ** The store client *)

Module test_data_manager_client.

(** The identities a create call assigns, one per submitted record. *)
Fixpoint assign_result_ids (n : Id) (results : list Result) : list Result :=
  match results with
  | [] => []
  | r :: rest => set_r_id (Some n) r :: assign_result_ids (S n) rest
  end.

Fixpoint assign_step_ids (n : Id) (steps : list Step) : list Step :=
  match steps with
  | [] => []
  | s :: rest => set_stepId (Some n) s :: assign_step_ids (S n) rest
  end.

Definition is_set {A} (o : option A) : bool :=
  match o with Some _ => true | None => false end.

(** The store answers a call: the exchange is recorded, [n] identities are
    used up. *)
Definition answered (w : World) (e : Exchange) (n : nat) : World :=
  mkWorld (uniform_draws w) (drawn w) (next_id w + n) (exchanges w ++ [e])
          (printed w).

(** Modelled from the spec: the module [test_data_manager_client] (the Result
    Store Client of the spec, section 6) is not part of the sources.
    [createResults] assigns identities; the submitted results must be in the
    running state, whose wire literal is ["RUNNING"].  The reply is the list
    under the key ["results"]. *)
Definition create_results (results : list Result) : M (list Result) :=
  fun w =>
    if forallb (fun r => statusType (r_status r) =? "RUNNING") results then
      let reply := assign_result_ids (next_id w) results in
      (Returns reply,
       answered w (CreateResults results (Some reply)) (List.length results))
    else
      (Raises "rejected", answered w (CreateResults results None) 0).

(** Modelled from the spec: [updateResults] requires [id] set, any field may
    change; the reply carries the results as the store now holds them, that
    is, as submitted. *)
Definition update_results (results : list Result) : M (list Result) :=
  fun w =>
    if forallb (fun r => is_set (r_id r)) results then
      (Returns results, answered w (UpdateResults results (Some results)) 0)
    else
      (Raises "rejected", answered w (UpdateResults results None) 0).

(** Modelled from the spec: [createSteps] assigns identities; [resultId] is
    required, [parentId] is nullable. *)
Definition create_steps (steps : list Step) : M (list Step) :=
  fun w =>
    if forallb (fun s => is_set (resultId s)) steps then
      let reply := assign_step_ids (next_id w) steps in
      (Returns reply,
       answered w (CreateSteps steps (Some reply)) (List.length steps))
    else
      (Raises "rejected", answered w (CreateSteps steps None) 0).

(** Modelled from the spec: [updateSteps] requires [stepId] set; the reply
    carries the steps as the store now holds them, that is, as submitted. *)
Definition update_steps (steps : list Step) : M (list Step) :=
  fun w =>
    if forallb (fun s => is_set (stepId s)) steps then
      (Returns steps, answered w (UpdateSteps steps (Some steps)) 0)
    else
      (Raises "rejected", answered w (UpdateSteps steps None) 0).

End test_data_manager_client.

(** ** The script *)

(** [measure_power(current, voltage)]: the power with a random current loss
    and a random voltage loss, and the input and output lists. *)
Definition measure_power (current voltage : Q)
  : M (Q * list NamedValue * list NamedValue) :=
  u1 <- random_uniform_0_1 ;;
  u2 <- random_uniform_0_1 ;;
  let current_loss := (1 - u1 * (1 # 4))%Q in
  let voltage_loss := (1 - u2 * (1 # 4))%Q in
  let power := (current * current_loss * voltage * voltage_loss)%Q in
  let inputs := [mkNamedValue "current" current;
                 mkNamedValue "voltage" voltage] in
  let outputs := [mkNamedValue "power" power] in
  ret (power, inputs, outputs).

Definition build_power_measurement_params
    (power low_limit high_limit : Q) (status : Status) : StepData :=
  let parameter :=
    mkMeasurement "Power Test" (statusType status) power "Watts" None
                  low_limit high_limit "GELE" in
  mkStepData "" [parameter].

Definition generate_step_data
    (name step_type : string)
    (inputs outputs : option (list NamedValue))
    (parameters : option StepData) (status : option Status) : M Step :=
  let step_status :=
    match status with
    | Some s => s
    | None => mkStatus "RUNNING" "Running"
    end in
  u <- random_uniform_0_1 ;;
  ret (mkStep None None None None parameters "TestStand" name None
              step_status step_type (u * 10)%Q inputs outputs).

(** [update_step_status(step, status)].  The Python function changes [step]
    in place and returns the reply of the store; here it returns the changed
    step together with the reply. *)
Definition update_step_status (step : Step) (status : string)
  : M (Step * list Step) :=
  let step :=
    if status =? "Passed" then set_status (mkStatus "PASSED" "Passed") step
    else if status =? "Failed" then
      set_status (mkStatus "FAILED" "Failed") step
    else step in
  response <- test_data_manager_client.update_steps [step] ;;
  ret (step, response).

Definition create_parent_step (result_id : option Id) : M Step :=
  voltage_sweep_step_data <-
    generate_step_data "Voltage Sweep" "SequenceCall" None None None None ;;
  let voltage_sweep_step_data := set_resultId result_id voltage_sweep_step_data in
  response <- test_data_manager_client.create_steps [voltage_sweep_step_data] ;;
  first response.

(** [x < y] on numbers. *)
Definition Qlt_bool (x y : Q) : bool := negb (Qle_bool y x).

(** The test of the power measurement (lines 157-166):
    [power < low_limit or power > high_limit]. *)
Definition power_status (power low_limit high_limit : Q) : Status :=
  if (Qlt_bool power low_limit || Qlt_bool high_limit power)%bool
  then mkStatus "FAILED" "Failed"
  else mkStatus "PASSED" "Passed".

(** The body of the [for voltage in range(0, 10)] loop; the loop state is
    the variable [parent_step]. *)
Definition child_step
    (result_id : option Id) (current low_limit high_limit : Q)
    (voltage : Z) (parent_step : Step) : M Step :=
  '(power, inputs, outputs) <- measure_power current (inject_Z voltage) ;;
  let status := power_status power low_limit high_limit in
  let test_parameters :=
    build_power_measurement_params power low_limit high_limit status in
  measure_power_output_step_data <-
    generate_step_data "Measure Power Output" "NumericLimit"
                       (Some inputs) (Some outputs) (Some test_parameters)
                       (Some status) ;;
  let measure_power_output_step_data :=
    set_parentId (stepId parent_step) measure_power_output_step_data in
  let measure_power_output_step_data :=
    set_resultId result_id measure_power_output_step_data in
  response <-
    test_data_manager_client.create_steps [measure_power_output_step_data] ;;
  measure_power_output_step <- first response ;;
  if statusType status =? "FAILED" then
    '(_, response) <- update_step_status parent_step "Failed" ;;
    first response
  else ret parent_step.

(** Lines 185-188: the parent is passed if it is still running. *)
Definition close_parent_step (parent_step : Step) : M Step :=
  if statusType (status parent_step) =? "RUNNING" then
    '(_, response) <- update_step_status parent_step "Passed" ;;
    first response
  else ret parent_step.

Definition create_child_steps
    (parent_step : Step) (result_id : option Id)
    (current low_limit high_limit : Q) : M Step :=
  parent_step <-
    for_each (range 0 10)
             (child_step result_id current low_limit high_limit)
             parent_step ;;
  close_parent_step parent_step.

(** The body of the [for current in range(0, 10)] loop of [main]. *)
Definition sweep_group (test_result : Result) (low_limit high_limit : Q)
    (current : Z) (_ : unit) : M unit :=
  voltage_sweep_step <- create_parent_step (r_id test_result) ;;
  voltage_sweep_step <-
    create_child_steps voltage_sweep_step (r_id test_result)
                       (inject_Z current) low_limit high_limit ;;
  ret tt.

(** The [try] block of [main].  [serial] and [now] are the values of
    [str(uuid.uuid4())] and [str(datetime.datetime.now())]. *)
Definition main_try (serial now : string) : M Result :=
  let low_limit := inject_Z 0 in
  let high_limit := inject_Z 70 in
  let test_result :=
    mkResult None "Power Test" (mkStatus "RUNNING" "Running") None None None
             serial "John Smith" "NI-ABC-123-PWR1" None now 0%Q in
  response <- test_data_manager_client.create_results [test_result] ;;
  test_result <- first response ;;
  _ <- for_each (range 0 10) (sweep_group test_result low_limit high_limit) tt ;;
  response <- test_data_manager_client.update_results [test_result] ;;
  first response.

(** [main()]: any exception of the [try] block is printed with two lines of
    advice. *)
Definition main (serial now : string) : M unit :=
  fun w =>
    match main_try serial now w with
    | (Returns _, w') => (Returns tt, w')
    | (Raises e, w') =>
        (_ <- print e ;;
         _ <- print "The given URL or API key might be invalid or the server might be down. Please try again after verifying the server is up and the URL or API key is valid" ;;
         print "For more information on how to generate API key, please refer to the documentation provided.") w'
    end.

(** A world for examples: every draw is [u], the store is empty. *)
Definition constant_world (u : Q) : World := mkWorld (fun _ => u) 0 0 [] [].

(** * Notions used by the properties *)

(** The world after [n] more draws of the generator. *)
Definition after_draws (n : nat) (w : World) : World :=
  mkWorld (uniform_draws w) (n + drawn w) (next_id w) (exchanges w)
          (printed w).

Definition set_totalTimeInSeconds (v : Q) (s : Step) : Step :=
  mkStep (stepId s) (parentId s) (resultId s) (children s) (data s)
         (dataModel s) (name s) (startedAt s) (status s) (stepType s)
         v (inputs s) (outputs s).

(** A generator whose draws are 0, 1/10, 2/10, ... *)
Definition ramp_world : World :=
  mkWorld (fun n => (Z.of_nat n # 10)%Q) 0 0 [] [].

(** The power [measure_power] computes in world [w]. *)
Definition measured_power (current voltage : Q) (w : World) : Q :=
  (current * (1 - uniform_draws w (drawn w) * (1 # 4)) * voltage *
   (1 - uniform_draws w (S (drawn w)) * (1 # 4)))%Q.

(** The leaf step one iteration of the child loop submits for creation. *)
Definition leaf_step
    (result_id : option Id) (current low_limit high_limit : Q)
    (voltage : Z) (parent_step : Step) (w : World) : Step :=
  let power := measured_power current (inject_Z voltage) w in
  let st := power_status power low_limit high_limit in
  mkStep None (stepId parent_step) result_id None
         (Some (build_power_measurement_params power low_limit high_limit st))
         "TestStand" "Measure Power Output" None st "NumericLimit"
         (uniform_draws w (2 + drawn w) * 10)%Q
         (Some [mkNamedValue "current" current;
                mkNamedValue "voltage" (inject_Z voltage)])
         (Some [mkNamedValue "power" power]).

(** A voltage sweep parent as the store returns it. *)
Definition example_parent (st : Status) : Step :=
  mkStep (Some 1) None (Some 0) None None "TestStand" "Voltage Sweep" None
         st "SequenceCall" 0%Q None None.

(** The [finalize] of the spec, on wire statuses: a running status becomes
    passed, any other status is returned unchanged. *)
Definition spec_finalize (s : Status) : Status :=
  if statusType s =? "RUNNING" then PASSED else s.

Definition is_create_steps (x : Exchange) : bool :=
  match x with CreateSteps _ _ => true | _ => false end.

(** The number of [create_steps] calls among exchanges. *)
Definition creations (l : list Exchange) : nat :=
  List.length (filter is_create_steps l).

(** An exchange that writes no status but failed to a step it updates. *)
Definition updates_only_failed (x : Exchange) : Prop :=
  match x with
  | UpdateSteps sent _ => Forall (fun s => status s = FAILED) sent
  | _ => True
  end.

Inductive Entity :=
| ResultE (i : Id)
| StepE (i : Id).

Definition entity_eqb (a b : Entity) : bool :=
  match a, b with
  | ResultE i, ResultE j => Nat.eqb i j
  | StepE i, StepE j => Nat.eqb i j
  | _, _ => false
  end.

Definition result_writes (results : list Result) : list (Entity * string) :=
  flat_map (fun r => match r_id r with
                     | Some i => [(ResultE i, statusType (r_status r))]
                     | None => []
                     end) results.

Definition step_writes (steps : list Step) : list (Entity * string) :=
  flat_map (fun s => match stepId s with
                     | Some i => [(StepE i, statusType (status s))]
                     | None => []
                     end) steps.

(** The statuses an accepted exchange writes: a creation writes the
    records with the identities of the reply, an update writes what was
    sent. *)
Definition writes_of (x : Exchange) : list (Entity * string) :=
  match x with
  | CreateResults _ (Some reply) => result_writes reply
  | UpdateResults sent (Some _) => result_writes sent
  | CreateSteps _ (Some reply) => step_writes reply
  | UpdateSteps sent (Some _) => step_writes sent
  | _ => []
  end.

(** The statuses written to entity [e], oldest first. *)
Definition written_to (e : Entity) (l : list Exchange) : list string :=
  map snd (filter (fun p => entity_eqb (fst p) e) (flat_map writes_of l)).

Definition terminal (s : string) : bool := (s =? "PASSED") || (s =? "FAILED").

(** No status written after a terminal one differs from it. *)
Fixpoint never_overwritten (ws : list string) : bool :=
  match ws with
  | [] => true
  | s :: rest =>
      (negb (terminal s) || forallb (String.eqb s) rest)
      && never_overwritten rest
  end.

(** A step exchange the store accepted. *)
Definition accepted_step_exchange (x : Exchange) : Prop :=
  match x with
  | CreateSteps _ (Some _) | UpdateSteps _ (Some _) => True
  | _ => False
  end.

(** Among the exchanges [pre], the store has created a sequence step of
    result [rid] and assigned it the identity [pid]. *)
Definition created_parent (rid pid : Id) (pre : list Exchange) : Prop :=
  exists sent reply s,
    In (CreateSteps sent (Some reply)) pre /\ In s reply /\
    stepId s = Some pid /\ resultId s = Some rid /\
    stepType s = "SequenceCall".

(** A step submitted for creation after the exchanges [pre] carries the
    identity of the result and, if it names a parent, the identity of a
    parent created before; a measurement step always names one. *)
Definition submitted_ok (rid : Id) (pre : list Exchange) (s : Step) : Prop :=
  resultId s = Some rid /\
  match parentId s with
  | Some pid => created_parent rid pid pre
  | None => stepType s <> "NumericLimit"
  end.

Definition creation_ok (rid : Id) (pre : list Exchange) (x : Exchange) : Prop :=
  match x with
  | CreateSteps sent _ => Forall (submitted_ok rid pre) sent
  | _ => True
  end.

(** Every creation among [l], which follows [pre], is [creation_ok] with
    respect to the exchanges before it. *)
Fixpoint identity_ok (rid : Id) (pre l : list Exchange) : Prop :=
  match l with
  | [] => True
  | x :: rest => creation_ok rid pre x /\ identity_ok rid (pre ++ [x]) rest
  end.

(** An entity the store has not assigned yet when [n] is its next identity
    (the result entities are not written by step exchanges at all). *)
Definition fresh (n : Id) (e : Entity) : Prop :=
  match e with
  | StepE i => n <= i
  | ResultE _ => True
  end.

Definition sweep_inv (rid n : Id) (l : list Exchange) : Prop :=
  Forall accepted_step_exchange l /\
  identity_ok rid [] l /\
  (forall e, never_overwritten (written_to e l) = true) /\
  (forall e, fresh n e -> written_to e l = []).

(** The parent of the group being swept: it was created, and the statuses
    written to it are running ones, followed by failed ones only if the
    parent in memory is failed. *)
Definition parent_inv (rid n : Id) (l : list Exchange) (p : Step) : Prop :=
  exists pid,
    stepId p = Some pid /\ pid < n /\ created_parent rid pid l /\
    forall t, In t (written_to (StepE pid) l) ->
      t = "RUNNING" \/ (t = "FAILED" /\ statusType (status p) = "FAILED").

(** The step [create_parent_step] submits for creation. *)
Definition parent_step_data (result_id : option Id) (w : World) : Step :=
  mkStep None None result_id None None "TestStand" "Voltage Sweep" None
         RUNNING "SequenceCall" (uniform_draws w (drawn w) * 10)%Q None None.

(** The exchanges of world [w] are [base] followed by exchanges that
    satisfy the invariant of the sweep of result [rid]. *)
Definition world_inv (base : list Exchange) (rid : Id) (k : nat) (w : World)
  : Prop :=
  exists l, exchanges w = base ++ l /\ sweep_inv rid (next_id w) l /\
            creations l = k.

Definition group_inv (base : list Exchange) (rid : Id) (k : nat) (p : Step)
    (w : World) : Prop :=
  exists l, exchanges w = base ++ l /\ sweep_inv rid (next_id w) l /\
            creations l = k /\ parent_inv rid (next_id w) l p.

(** The result [main] submits for creation. *)
Definition initial_result (serial now : string) : Result :=
  mkResult None "Power Test" RUNNING None None None serial "John Smith"
           "NI-ABC-123-PWR1" None now 0%Q.

(** The steps submitted for creation among exchanges, oldest first. *)
Definition submitted (l : list Exchange) : list Step :=
  flat_map (fun x => match x with
                     | CreateSteps sent _ => sent
                     | _ => []
                     end) l.

(** A creation call that submits a failed step. *)
Definition failed_creation (x : Exchange) : bool :=
  match x with
  | CreateSteps sent _ =>
      existsb (fun s => statusType (status s) =? "FAILED") sent
  | _ => false
  end.

(** What the child loop of parent [p] exchanges with the store: it creates
    one measurement step under [p] at a time, already passed or failed,
    and it updates only [p], to failed. *)
Definition group_exchange (rid : option Id) (p : Step) (x : Exchange) : Prop :=
  match x with
  | CreateSteps [s] (Some [s']) =>
      s' = set_stepId (stepId s') s /\ stepId s' <> None /\
      stepId s = None /\ parentId s = stepId p /\ resultId s = rid /\
      stepType s = "NumericLimit" /\ name s = "Measure Power Output" /\
      data s <> None /\
      (status s = PASSED \/ status s = FAILED)
  | UpdateSteps [q] (Some [q']) => q' = q /\ q = set_status FAILED p
  | _ => False
  end.


(** A world in which the store has already assigned the identities 0
    and 1 (to a result and to the parent [example_parent]); no loss. *)
Definition example_world : World := mkWorld (fun _ => 0%Q) 0 2 [] [].


(** * Properties *)

(** ** Numbers and strings *)

Lemma Qlt_bool_iff (x y : Q) : Qlt_bool x y = true <-> (x < y)%Q.
Proof.
  unfold Qlt_bool. rewrite negb_true_iff.
  split; intro H.
  - apply Qnot_le_lt. intro Hle. apply Qle_bool_iff in Hle. congruence.
  - destruct (Qle_bool y x) eqn:E; [|reflexivity].
    apply Qle_bool_iff in E. exfalso. exact (Qlt_not_le _ _ H E).
Qed.

Lemma Qlt_bool_false_iff (x y : Q) : Qlt_bool x y = false <-> (y <= x)%Q.
Proof.
  unfold Qlt_bool. rewrite negb_false_iff. apply Qle_bool_iff.
Qed.

(** ** The leaf test *)

Lemma power_status_cases (m lo hi : Q) :
  ((lo <= m)%Q /\ (m <= hi)%Q /\ power_status m lo hi = PASSED) \/
  (((m < lo)%Q \/ (hi < m)%Q) /\ power_status m lo hi = FAILED).
Proof.
  unfold power_status.
  destruct (Qlt_bool m lo) eqn:E1; simpl.
  - right. split; [left; now apply Qlt_bool_iff | reflexivity].
  - destruct (Qlt_bool hi m) eqn:E2.
    + right. split; [right; now apply Qlt_bool_iff | reflexivity].
    + left. apply Qlt_bool_false_iff in E1, E2. auto.
Qed.

(** C3.  For limits [lo <= hi], the test of a measured value [m] gives the
    passed status exactly when [lo <= m <= hi]; the two bounds themselves
    pass; a value strictly below [lo] or strictly above [hi] fails. *)
Theorem power_status_closed_interval (m lo hi : Q) (Hlim : (lo <= hi)%Q) :
  (power_status m lo hi = PASSED <-> (lo <= m)%Q /\ (m <= hi)%Q) /\
  power_status lo lo hi = PASSED /\
  power_status hi lo hi = PASSED /\
  ((m < lo)%Q \/ (hi < m)%Q -> power_status m lo hi = FAILED).
Proof.
  split; [split|split; [|split]].
  - intro E.
    destruct (power_status_cases m lo hi) as [(H1 & H2 & _) | (_ & H)];
      [split; assumption | rewrite H in E; discriminate].
  - intros [H1 H2].
    destruct (power_status_cases m lo hi) as [(_ & _ & H) | ([H | H] & _)];
      [exact H | exfalso; exact (Qlt_not_le _ _ H H1)
               | exfalso; exact (Qlt_not_le _ _ H H2)].
  - destruct (power_status_cases lo lo hi) as [(_ & _ & H) | ([H | H] & _)];
      [exact H | exfalso; exact (Qlt_irrefl _ H)
               | exfalso; exact (Qlt_not_le _ _ H Hlim)].
  - destruct (power_status_cases hi lo hi) as [(_ & _ & H) | ([H | H] & _)];
      [exact H | exfalso; exact (Qlt_not_le _ _ H Hlim)
               | exfalso; exact (Qlt_irrefl _ H)].
  - intros H.
    destruct (power_status_cases m lo hi) as [(H1 & H2 & _) | (_ & E)];
      [|exact E].
    destruct H as [H | H]; exfalso;
      [exact (Qlt_not_le _ _ H H1) | exact (Qlt_not_le _ _ H H2)].
Qed.

Lemma power_status_closed_interval_witness :
  (power_status (35 # 1) (inject_Z 0) (inject_Z 70) = PASSED <->
   (inject_Z 0 <= 35 # 1)%Q /\ (35 # 1 <= inject_Z 70)%Q) /\
  power_status (inject_Z 0) (inject_Z 0) (inject_Z 70) = PASSED /\
  power_status (inject_Z 70) (inject_Z 0) (inject_Z 70) = PASSED /\
  ((35 # 1 < inject_Z 0)%Q \/ (inject_Z 70 < 35 # 1)%Q ->
   power_status (35 # 1) (inject_Z 0) (inject_Z 70) = FAILED).
Proof.
  apply (power_status_closed_interval (35 # 1) (inject_Z 0) (inject_Z 70)).
  unfold Qle; simpl; lia.
Defined.

(** ** The measurement source *)

(** C8.  For a current and a voltage that are not negative and two draws in
    [[0, 1]], [measure_power] returns the product of current and voltage
    scaled by a current loss factor fixed by the first draw and a voltage
    loss factor fixed by the second, both in [[3/4, 1]]; the power never
    exceeds the product of current and voltage. *)
Theorem measure_power_bounded (w : World) (current voltage : Q)
    (Hc : (0 <= current)%Q) (Hv : (0 <= voltage)%Q)
    (H1 : (0 <= uniform_draws w (drawn w))%Q /\
          (uniform_draws w (drawn w) <= 1)%Q)
    (H2 : (0 <= uniform_draws w (S (drawn w)))%Q /\
          (uniform_draws w (S (drawn w)) <= 1)%Q) :
  exists power inputs outputs w' current_loss voltage_loss,
    measure_power current voltage w = (Returns (power, inputs, outputs), w') /\
    (current_loss == 1 - uniform_draws w (drawn w) * (1 # 4))%Q /\
    (voltage_loss == 1 - uniform_draws w (S (drawn w)) * (1 # 4))%Q /\
    ((3 # 4) <= current_loss)%Q /\ (current_loss <= 1)%Q /\
    ((3 # 4) <= voltage_loss)%Q /\ (voltage_loss <= 1)%Q /\
    (power == current * voltage * current_loss * voltage_loss)%Q /\
    (power <= current * voltage)%Q.
Proof.
  set (u1 := uniform_draws w (drawn w)) in *.
  set (u2 := uniform_draws w (S (drawn w))) in *.
  destruct H1 as [H1a H1b], H2 as [H2a H2b].
  eexists _, _, _, _, (1 - u1 * (1 # 4))%Q, (1 - u2 * (1 # 4))%Q.
  split; [reflexivity|].
  cbn [uniform_draws drawn]. fold u1 u2.
  assert (Hcl1 : ((3 # 4) <= 1 - u1 * (1 # 4))%Q) by lra.
  assert (Hcl2 : (1 - u1 * (1 # 4) <= 1)%Q) by lra.
  assert (Hvl1 : ((3 # 4) <= 1 - u2 * (1 # 4))%Q) by lra.
  assert (Hvl2 : (1 - u2 * (1 # 4) <= 1)%Q) by lra.
  repeat split; try assumption; try reflexivity.
  - ring.
  - set (cl := (1 - u1 * (1 # 4))%Q) in *.
    set (vl := (1 - u2 * (1 # 4))%Q) in *.
    assert (Ha : (current * cl <= current)%Q) by nra.
    assert (Ha0 : (0 <= current * cl)%Q) by nra.
    assert (Hb : (current * cl * voltage <= current * voltage)%Q) by nra.
    assert (Hb0 : (0 <= current * cl * voltage)%Q) by nra.
    assert (Hd : (current * cl * voltage * vl <= current * cl * voltage)%Q)
      by nra.
    lra.
Qed.

Lemma measure_power_bounded_witness :
  exists power inputs outputs w' current_loss voltage_loss,
    measure_power (inject_Z 9) (inject_Z 9) (constant_world (1 # 2)) =
      (Returns (power, inputs, outputs), w') /\
    (current_loss == 1 - (1 # 2) * (1 # 4))%Q /\
    (voltage_loss == 1 - (1 # 2) * (1 # 4))%Q /\
    ((3 # 4) <= current_loss)%Q /\ (current_loss <= 1)%Q /\
    ((3 # 4) <= voltage_loss)%Q /\ (voltage_loss <= 1)%Q /\
    (power == inject_Z 9 * inject_Z 9 * current_loss * voltage_loss)%Q /\
    (power <= inject_Z 9 * inject_Z 9)%Q.
Proof.
  apply (measure_power_bounded (constant_world (1 # 2))
                               (inject_Z 9) (inject_Z 9));
    simpl; unfold Qle; simpl; lia.
Defined.

(** ** Updating a step's status *)

Lemma update_step_status_unfold (step : Step) (s : string) (w : World) :
  update_step_status step s w =
  let step' :=
    if s =? "Passed" then set_status PASSED step
    else if s =? "Failed" then set_status FAILED step else step in
  if forallb (fun x => test_data_manager_client.is_set (stepId x)) [step']
  then (Returns (step', [step']),
        test_data_manager_client.answered
          w (UpdateSteps [step'] (Some [step'])) 0)
  else (Raises "rejected",
        test_data_manager_client.answered w (UpdateSteps [step'] None) 0).
Proof.
  unfold update_step_status, bind, test_data_manager_client.update_steps.
  cbv zeta.
  unfold PASSED, FAILED.
  set (x := if s =? "Passed" then _ else _). clearbody x.
  destruct (forallb (fun y => test_data_manager_client.is_set (stepId y)) [x]);
    reflexivity.
Qed.

(** C10.  For a status string other than ["Passed"] and ["Failed"],
    [update_step_status] sends the step to [update_steps] exactly as it
    received it, its status included; when the call returns, the step it
    holds is the one it received. *)
Theorem update_step_status_other_string
    (step : Step) (s : string) (w : World)
    (HP : s <> "Passed") (HF : s <> "Failed") :
  exists outcome reply w',
    update_step_status step s w = (outcome, w') /\
    exchanges w' = exchanges w ++ [UpdateSteps [step] reply] /\
    match outcome with
    | Returns (step', response) => step' = step /\ response = [step]
    | Raises _ => reply = None
    end.
Proof.
  rewrite update_step_status_unfold.
  apply String.eqb_neq in HP, HF. rewrite HP, HF. cbv zeta.
  destruct (forallb _ [step]); do 3 eexists;
    (split; [reflexivity | split; [reflexivity | ]]); simpl; auto.
Qed.

Lemma update_step_status_other_string_witness :
  exists outcome reply w',
    update_step_status
      (mkStep (Some 1) None (Some 0) None None "TestStand" "Voltage Sweep"
              None FAILED "SequenceCall" 0%Q None None)
      "Running" (constant_world 0%Q) = (outcome, w') /\
    exchanges w' =
      exchanges (constant_world 0%Q) ++
      [UpdateSteps
         [mkStep (Some 1) None (Some 0) None None "TestStand" "Voltage Sweep"
                 None FAILED "SequenceCall" 0%Q None None] reply] /\
    match outcome with
    | Returns (step', response) =>
        step' = mkStep (Some 1) None (Some 0) None None "TestStand"
                       "Voltage Sweep" None FAILED "SequenceCall" 0%Q
                       None None /\
        response = [mkStep (Some 1) None (Some 0) None None "TestStand"
                           "Voltage Sweep" None FAILED "SequenceCall" 0%Q
                           None None]
    | Raises _ => reply = None
    end.
Proof.
  apply (update_step_status_other_string
           (mkStep (Some 1) None (Some 0) None None "TestStand"
                   "Voltage Sweep" None FAILED "SequenceCall" 0%Q None None)
           "Running" (constant_world 0%Q)); discriminate.
Defined.

(** ** The step factory *)

Lemma generate_step_data_run
    (nm ty : string) (i o : option (list NamedValue))
    (p : option StepData) (s : option Status) (w : World) :
  generate_step_data nm ty i o p s w =
  (Returns (mkStep None None None None p "TestStand" nm None
                   (match s with Some x => x | None => RUNNING end) ty
                   (uniform_draws w (drawn w) * 10)%Q i o),
   after_draws 1 w).
Proof. reflexivity. Qed.

(** C7, as stated, fails: two calls of [generate_step_data] with the same
    arguments, one after the other, return steps whose
    [totalTimeInSeconds] differ, and the first call has changed the state
    of the random generator. *)
Lemma generate_step_data_twice_differs :
  exists s1 w1 s2 w2,
    generate_step_data "Voltage Sweep" "SequenceCall" None None None None
                       ramp_world = (Returns s1, w1) /\
    generate_step_data "Voltage Sweep" "SequenceCall" None None None None
                       w1 = (Returns s2, w2) /\
    s1 <> s2 /\
    ~ (totalTimeInSeconds s1 == totalTimeInSeconds s2)%Q /\
    drawn w1 <> drawn ramp_world.
Proof.
  do 4 eexists.
  split; [reflexivity|]. split; [reflexivity|].
  split; [discriminate|]. split; [|discriminate].
  simpl. unfold Qeq. simpl. lia.
Qed.

(** C7, amended.  [generate_step_data] always returns; it makes no store
    call and prints nothing, but consumes one draw of the random generator,
    and the step it returns is fixed by its arguments and that draw:
    [totalTimeInSeconds] is ten times the draw, and two calls with the same
    arguments return steps that agree on every other field. *)
Theorem generate_step_data_deterministic_up_to_draw
    (nm ty : string) (i o : option (list NamedValue))
    (p : option StepData) (s : option Status) (w1 w2 : World) :
  exists s1 s2,
    generate_step_data nm ty i o p s w1 = (Returns s1, after_draws 1 w1) /\
    generate_step_data nm ty i o p s w2 = (Returns s2, after_draws 1 w2) /\
    totalTimeInSeconds s1 = (uniform_draws w1 (drawn w1) * 10)%Q /\
    totalTimeInSeconds s2 = (uniform_draws w2 (drawn w2) * 10)%Q /\
    set_totalTimeInSeconds 0%Q s1 = set_totalTimeInSeconds 0%Q s2 /\
    (uniform_draws w1 (drawn w1) = uniform_draws w2 (drawn w2) -> s1 = s2).
Proof.
  do 2 eexists. rewrite !generate_step_data_run.
  repeat split. intros E. simpl. rewrite E. reflexivity.
Qed.

(** ** Running the script: one call at a time *)

Import test_data_manager_client.

Lemma create_steps_run (s : Step) (w : World) :
  is_set (resultId s) = true ->
  create_steps [s] w =
  (Returns [set_stepId (Some (next_id w)) s],
   answered w (CreateSteps [s] (Some [set_stepId (Some (next_id w)) s])) 1).
Proof.
  intros H. unfold create_steps. simpl. rewrite H. reflexivity.
Qed.

Lemma update_steps_run (s : Step) (w : World) :
  is_set (stepId s) = true ->
  update_steps [s] w = (Returns [s], answered w (UpdateSteps [s] (Some [s])) 0).
Proof.
  intros H. unfold update_steps. simpl. rewrite H. reflexivity.
Qed.

Lemma update_step_status_Failed_run (step : Step) (w : World) :
  is_set (stepId step) = true ->
  update_step_status step "Failed" w =
  (Returns (set_status FAILED step, [set_status FAILED step]),
   answered w (UpdateSteps [set_status FAILED step]
                           (Some [set_status FAILED step])) 0).
Proof.
  intros H. rewrite update_step_status_unfold. simpl. rewrite H. reflexivity.
Qed.

Lemma update_step_status_Passed_run (step : Step) (w : World) :
  is_set (stepId step) = true ->
  update_step_status step "Passed" w =
  (Returns (set_status PASSED step, [set_status PASSED step]),
   answered w (UpdateSteps [set_status PASSED step]
                           (Some [set_status PASSED step])) 0).
Proof.
  intros H. rewrite update_step_status_unfold. simpl. rewrite H. reflexivity.
Qed.

Lemma measure_power_run (current voltage : Q) (w : World) :
  measure_power current voltage w =
  (Returns (measured_power current voltage w,
            [mkNamedValue "current" current; mkNamedValue "voltage" voltage],
            [mkNamedValue "power" (measured_power current voltage w)]),
   after_draws 2 w).
Proof. reflexivity. Qed.

Lemma power_status_two (m lo hi : Q) :
  power_status m lo hi = PASSED \/ power_status m lo hi = FAILED.
Proof.
  destruct (power_status_cases m lo hi) as [(_ & _ & H) | (_ & H)]; auto.
Qed.

(** What one iteration of the child loop does. *)
Lemma child_step_run
    (result_id : option Id) (current lo hi : Q) (voltage : Z)
    (parent_step : Step) (w : World) :
  is_set result_id = true ->
  is_set (stepId parent_step) = true ->
  let leaf := leaf_step result_id current lo hi voltage parent_step w in
  let w1 :=
    answered (after_draws 3 w)
             (CreateSteps [leaf] (Some [set_stepId (Some (next_id w)) leaf]))
             1 in
  child_step result_id current lo hi voltage parent_step w =
  if statusType (status leaf) =? "FAILED"
  then (Returns (set_status FAILED parent_step),
        answered w1 (UpdateSteps [set_status FAILED parent_step]
                                 (Some [set_status FAILED parent_step])) 0)
  else (Returns parent_step, w1).
Proof.
  intros Hr Hp leaf w1.
  unfold child_step. unfold bind at 1. rewrite measure_power_run.
  unfold bind at 1. rewrite generate_step_data_run.
  unfold bind at 1.
  rewrite create_steps_run by exact Hr.
  unfold bind at 1. unfold first at 1. unfold ret at 1.
  subst w1 leaf. unfold leaf_step. cbv zeta.
  destruct (power_status_two (measured_power current (inject_Z voltage) w)
                             lo hi) as [E | E]; rewrite E; simpl.
  - reflexivity.
  - unfold bind. rewrite update_step_status_Failed_run by exact Hp.
    reflexivity.
Qed.

(** ** Folding a child into its parent *)

(** C4.  One iteration of the child loop, for a parent of any status: a
    failed child leaves the parent failed, a passed child leaves the
    parent as it was (a running parent stays running, a failed parent
    stays failed); the child is the leaf the iteration has created. *)
Theorem child_step_failure_is_sticky
    (result_id : option Id) (current lo hi : Q) (voltage : Z)
    (parent_step : Step) (w : World)
    (Hr : is_set result_id = true)
    (Hp : is_set (stepId parent_step) = true) :
  exists parent' w' leaf reply,
    child_step result_id current lo hi voltage parent_step w =
      (Returns parent', w') /\
    In (CreateSteps [leaf] (Some reply)) (exchanges w') /\
    leaf = leaf_step result_id current lo hi voltage parent_step w /\
    (status leaf = FAILED \/ status leaf = PASSED) /\
    (status leaf = FAILED -> status parent' = FAILED) /\
    (status leaf = PASSED -> parent' = parent_step) /\
    (status leaf = PASSED -> status parent_step = RUNNING ->
     status parent' = RUNNING) /\
    (status leaf = PASSED -> status parent_step = FAILED ->
     status parent' = FAILED).
Proof.
  pose proof (child_step_run result_id current lo hi voltage parent_step w
                             Hr Hp) as Hrun.
  cbv zeta in Hrun.
  set (leaf := leaf_step result_id current lo hi voltage parent_step w) in *.
  destruct (power_status_two (measured_power current (inject_Z voltage) w)
                             lo hi) as [E | E];
    change (power_status (measured_power current (inject_Z voltage) w) lo hi)
      with (status leaf) in E; rewrite E in Hrun; simpl in Hrun.
  - eexists _, _, leaf, _. split; [exact Hrun|].
    split; [simpl; apply in_or_app; right; left; reflexivity|].
    split; [reflexivity|]. split; [right; exact E|].
    repeat split; try congruence.
    intros E'. rewrite E in E'. discriminate.
  - eexists _, _, leaf, _. split; [exact Hrun|].
    split; [simpl; apply in_or_app; left; apply in_or_app; right; left;
            reflexivity|].
    split; [reflexivity|]. split; [left; exact E|].
    repeat split; try reflexivity; intros E'; rewrite E in E'; discriminate.
Qed.

Lemma child_step_failure_is_sticky_witness :
  exists parent' w' leaf reply,
    child_step (Some 0) (inject_Z 9) (inject_Z 0) (inject_Z 70) 9
               (example_parent PASSED) (constant_world 0%Q) =
      (Returns parent', w') /\
    In (CreateSteps [leaf] (Some reply)) (exchanges w') /\
    leaf = leaf_step (Some 0) (inject_Z 9) (inject_Z 0) (inject_Z 70) 9
                     (example_parent PASSED) (constant_world 0%Q) /\
    (status leaf = FAILED \/ status leaf = PASSED) /\
    (status leaf = FAILED -> status parent' = FAILED) /\
    (status leaf = PASSED -> parent' = example_parent PASSED) /\
    (status leaf = PASSED -> status (example_parent PASSED) = RUNNING ->
     status parent' = RUNNING) /\
    (status leaf = PASSED -> status (example_parent PASSED) = FAILED ->
     status parent' = FAILED).
Proof.
  apply (child_step_failure_is_sticky
           (Some 0) (inject_Z 9) (inject_Z 0) (inject_Z 70) 9
           (example_parent PASSED) (constant_world 0%Q));
    reflexivity.
Defined.

(** The three cases of the fold on concrete children: 9 A and 9 V without
    loss is 81 W, above the limit; 1 A and 1 V is within the limits. *)
Example fold_failed_child_into_passed_parent :
  fst (child_step (Some 0) (inject_Z 9) (inject_Z 0) (inject_Z 70) 9
                  (example_parent PASSED) (constant_world 0%Q)) =
  Returns (example_parent FAILED).
Proof. vm_compute. reflexivity. Qed.

Example fold_passed_child_into_running_parent :
  fst (child_step (Some 0) (inject_Z 1) (inject_Z 0) (inject_Z 70) 1
                  (example_parent RUNNING) (constant_world 0%Q)) =
  Returns (example_parent RUNNING).
Proof. vm_compute. reflexivity. Qed.

Example fold_passed_child_into_failed_parent :
  fst (child_step (Some 0) (inject_Z 1) (inject_Z 0) (inject_Z 70) 1
                  (example_parent FAILED) (constant_world 0%Q)) =
  Returns (example_parent FAILED).
Proof. vm_compute. reflexivity. Qed.

(** ** When the parent is updated in the child loop *)

(** C2, as stated, fails.  In the group of 9 A with no loss, the child at
    8 V (72 W) has already failed the parent; the child at 9 V (81 W)
    fails too, the parent in memory stays exactly as it was, and yet an
    update of the parent is sent. *)
Lemma parent_update_without_status_change :
  exists p w1 p' w2 leaf reply,
    (p0 <- create_parent_step (Some 0) ;;
     for_each (range 0 9)
              (child_step (Some 0) (inject_Z 9) (inject_Z 0) (inject_Z 70))
              p0) (constant_world 0%Q) = (Returns p, w1) /\
    status p = FAILED /\
    child_step (Some 0) (inject_Z 9) (inject_Z 0) (inject_Z 70) 9 p w1 =
      (Returns p', w2) /\
    p' = p /\
    exchanges w2 =
      exchanges w1 ++
      [CreateSteps [leaf] (Some reply); UpdateSteps [p] (Some [p])].
Proof.
  do 6 eexists.
  split; [vm_compute; reflexivity|].
  split; [reflexivity|].
  split; [vm_compute; reflexivity|].
  split; reflexivity.
Qed.

(** C2, amended.  One iteration of the child loop sends an update of the
    parent exactly when the child it has created is failed, whatever the
    status of the parent before: a failed child is followed by one update
    carrying the parent as failed, a passed child by none. *)
Theorem child_step_updates_parent_iff_child_failed
    (result_id : option Id) (current lo hi : Q) (voltage : Z)
    (parent_step : Step) (w : World)
    (Hr : is_set result_id = true)
    (Hp : is_set (stepId parent_step) = true) :
  exists parent' w' leaf reply updates,
    child_step result_id current lo hi voltage parent_step w =
      (Returns parent', w') /\
    leaf = leaf_step result_id current lo hi voltage parent_step w /\
    exchanges w' =
      exchanges w ++ CreateSteps [leaf] (Some reply) :: updates /\
    (status leaf = FAILED \/ status leaf = PASSED) /\
    (status leaf = FAILED ->
     updates = [UpdateSteps [set_status FAILED parent_step]
                            (Some [set_status FAILED parent_step])]) /\
    (status leaf = PASSED -> updates = []).
Proof.
  pose proof (child_step_run result_id current lo hi voltage parent_step w
                             Hr Hp) as Hrun.
  cbv zeta in Hrun.
  set (leaf := leaf_step result_id current lo hi voltage parent_step w) in *.
  destruct (power_status_two (measured_power current (inject_Z voltage) w)
                             lo hi) as [E | E];
    change (power_status (measured_power current (inject_Z voltage) w) lo hi)
      with (status leaf) in E; rewrite E in Hrun; simpl in Hrun.
  - eexists _, _, leaf, _, []. split; [exact Hrun|].
    split; [reflexivity|]. split; [reflexivity|]. split; [right; exact E|].
    split; [|reflexivity].
    intros E'. rewrite E in E'. discriminate.
  - eexists _, _, leaf, _, [_]. split; [exact Hrun|].
    split; [reflexivity|].
    split; [simpl; rewrite <- app_assoc; reflexivity|].
    split; [left; exact E|]. split; [reflexivity|].
    intros E'. rewrite E in E'. discriminate.
Qed.

Lemma child_step_updates_parent_iff_child_failed_witness :
  exists parent' w' leaf reply updates,
    child_step (Some 0) (inject_Z 9) (inject_Z 0) (inject_Z 70) 9
               (example_parent FAILED) (constant_world 0%Q) =
      (Returns parent', w') /\
    leaf = leaf_step (Some 0) (inject_Z 9) (inject_Z 0) (inject_Z 70) 9
                     (example_parent FAILED) (constant_world 0%Q) /\
    exchanges w' =
      exchanges (constant_world 0%Q) ++
      CreateSteps [leaf] (Some reply) :: updates /\
    (status leaf = FAILED \/ status leaf = PASSED) /\
    (status leaf = FAILED ->
     updates = [UpdateSteps [set_status FAILED (example_parent FAILED)]
                            (Some [set_status FAILED (example_parent FAILED)])]) /\
    (status leaf = PASSED -> updates = []).
Proof.
  apply (child_step_updates_parent_iff_child_failed
           (Some 0) (inject_Z 9) (inject_Z 0) (inject_Z 70) 9
           (example_parent FAILED) (constant_world 0%Q));
    reflexivity.
Defined.

(** ** Loops *)

(** A loop whose body always returns and keeps an invariant (which may
    speak of the items already processed) returns and keeps it. *)
Lemma for_each_invariant {A S : Type}
    (I : list A -> S -> World -> Prop) (body : A -> S -> M S) :
  (forall done x s w, I done s w ->
     exists s' w', body x s w = (Returns s', w') /\ I (done ++ [x]) s' w') ->
  forall xs done s w, I done s w ->
    exists s' w',
      for_each xs body s w = (Returns s', w') /\ I (done ++ xs) s' w'.
Proof.
  intros Hbody xs. induction xs as [|x xs IH]; intros done s w HI.
  - exists s, w. rewrite app_nil_r. split; [reflexivity | exact HI].
  - destruct (Hbody done x s w HI) as (s1 & w1 & E1 & HI1).
    destruct (IH (done ++ [x]) s1 w1 HI1) as (s2 & w2 & E2 & HI2).
    exists s2, w2. split.
    + simpl. unfold bind. rewrite E1. exact E2.
    + rewrite <- app_assoc in HI2. exact HI2.
Qed.

(** ** Closing a parent *)

Lemma close_parent_step_run (parent_step : Step) (w : World) :
  is_set (stepId parent_step) = true ->
  close_parent_step parent_step w =
  if statusType (status parent_step) =? "RUNNING"
  then (Returns (set_status PASSED parent_step),
        answered w (UpdateSteps [set_status PASSED parent_step]
                                (Some [set_status PASSED parent_step])) 0)
  else (Returns parent_step, w).
Proof.
  intros Hp. unfold close_parent_step.
  destruct (statusType (status parent_step) =? "RUNNING"); [|reflexivity].
  unfold bind. rewrite update_step_status_Passed_run by exact Hp.
  reflexivity.
Qed.

Lemma creations_app (l1 l2 : list Exchange) :
  creations (l1 ++ l2) = creations l1 + creations l2.
Proof.
  unfold creations. rewrite filter_app, length_app. reflexivity.
Qed.

(** The child loop keeps the identity of the parent, creates one child per
    voltage and updates the parent only to failed. *)
Lemma child_loop_run
    (result_id : option Id) (current lo hi : Q) (voltages : list Z)
    (parent_step : Step) (w : World) :
  is_set result_id = true ->
  is_set (stepId parent_step) = true ->
  exists p' w' l,
    for_each voltages (child_step result_id current lo hi) parent_step w =
      (Returns p', w') /\
    (p' = parent_step \/ p' = set_status FAILED parent_step) /\
    exchanges w' = exchanges w ++ l /\
    creations l = List.length voltages /\
    Forall updates_only_failed l.
Proof.
  intros Hr Hp.
  pose (I := fun (done : list Z) (p : Step) (w' : World) =>
    (p = parent_step \/ p = set_status FAILED parent_step) /\
    exists l, exchanges w' = exchanges w ++ l /\
              creations l = List.length done /\
              Forall updates_only_failed l).
  assert (Hbody : forall done x s w1, I done s w1 ->
            exists s' w', child_step result_id current lo hi x s w1 =
                            (Returns s', w') /\ I (done ++ [x]) s' w').
  { intros done x s w1 (Hs & l & El & Hc & Hall).
    assert (Hs' : is_set (stepId s) = true)
      by (destruct Hs as [-> | ->]; exact Hp).
    pose proof (child_step_run result_id current lo hi x s w1 Hr Hs') as Hrun.
    cbv zeta in Hrun.
    destruct (statusType (status (leaf_step result_id current lo hi x s w1))
              =? "FAILED").
    - eexists _, _. split; [exact Hrun|]. split.
      + right. destruct Hs as [-> | ->]; reflexivity.
      + eexists (l ++ [_; _]). simpl. rewrite El, <- !app_assoc. simpl.
        split; [reflexivity|]. split.
        * rewrite creations_app, length_app, Hc. reflexivity.
        * apply Forall_app. split; [exact Hall|].
          repeat constructor.
    - eexists _, _. split; [exact Hrun|]. split; [exact Hs|].
      eexists (l ++ [_]). simpl. rewrite El, <- !app_assoc. simpl.
      split; [reflexivity|]. split.
      + rewrite creations_app, length_app, Hc. reflexivity.
      + apply Forall_app. split; [exact Hall|]. repeat constructor. }
  destruct (for_each_invariant I _ Hbody voltages [] parent_step w)
    as (p' & w' & E & Hs & l & El & Hc & Hall).
  { split; [left; reflexivity|]. exists []. rewrite app_nil_r.
    repeat split. constructor. }
  exists p', w', l. repeat split; assumption.
Qed.

(** C5.  Closing a parent computes the [finalize] of the spec: running
    becomes passed, failed and passed stay, closing twice is closing once.
    [create_child_steps] closes its parent once, when the loop has created
    all ten children; the loop itself sends no status but failed, and a
    closed parent would not be updated by closing it again. *)
Theorem create_child_steps_finalizes_once
    (parent_step : Step) (result_id : option Id) (current lo hi : Q)
    (w : World)
    (Hr : is_set result_id = true)
    (Hp : is_set (stepId parent_step) = true) :
  (spec_finalize RUNNING = PASSED /\
   spec_finalize FAILED = FAILED /\
   spec_finalize PASSED = PASSED /\
   forall s, spec_finalize (spec_finalize s) = spec_finalize s) /\
  exists p_loop w_loop l p' w',
    for_each (range 0 10) (child_step result_id current lo hi)
             parent_step w = (Returns p_loop, w_loop) /\
    exchanges w_loop = exchanges w ++ l /\
    creations l = 10 /\
    Forall updates_only_failed l /\
    create_child_steps parent_step result_id current lo hi w =
      (Returns p', w') /\
    close_parent_step p_loop w_loop = (Returns p', w') /\
    status p' = spec_finalize (status p_loop) /\
    (statusType (status p_loop) = "RUNNING" ->
     exchanges w' =
       exchanges w_loop ++
       [UpdateSteps [set_status PASSED p_loop]
                    (Some [set_status PASSED p_loop])]) /\
    (statusType (status p_loop) <> "RUNNING" ->
     p' = p_loop /\ w' = w_loop) /\
    close_parent_step p' w' = (Returns p', w').
Proof.
  split.
  - repeat split. intros s. unfold spec_finalize.
    destruct (statusType s =? "RUNNING") eqn:E; [reflexivity|].
    rewrite E. reflexivity.
  - destruct (child_loop_run result_id current lo hi (range 0 10)
                             parent_step w Hr Hp)
      as (p_loop & w_loop & l & E & Hs & El & Hc & Hall).
    assert (Hp' : is_set (stepId p_loop) = true)
      by (destruct Hs as [-> | ->]; exact Hp).
    pose proof (close_parent_step_run p_loop w_loop Hp') as Hclose.
    destruct (statusType (status p_loop) =? "RUNNING") eqn:Erun.
    + exists p_loop, w_loop, l. eexists _, _.
      split; [exact E|]. split; [exact El|]. split; [exact Hc|].
      split; [exact Hall|].
      split; [unfold create_child_steps, bind; rewrite E; exact Hclose|].
      split; [exact Hclose|].
      split; [unfold spec_finalize; rewrite Erun; reflexivity|].
      split; [intros _; reflexivity|].
      split; [intros Hne; apply String.eqb_eq in Erun; congruence|].
      rewrite close_parent_step_run by exact Hp'. reflexivity.
    + exists p_loop, w_loop, l, p_loop, w_loop.
      split; [exact E|]. split; [exact El|]. split; [exact Hc|].
      split; [exact Hall|].
      split; [unfold create_child_steps, bind; rewrite E; exact Hclose|].
      split; [exact Hclose|].
      split; [unfold spec_finalize; rewrite Erun; reflexivity|].
      split; [intros He; apply String.eqb_neq in Erun; congruence|].
      split; [intros _; split; reflexivity|].
      exact Hclose.
Qed.

Lemma create_child_steps_finalizes_once_witness :
  (spec_finalize RUNNING = PASSED /\
   spec_finalize FAILED = FAILED /\
   spec_finalize PASSED = PASSED /\
   forall s, spec_finalize (spec_finalize s) = spec_finalize s) /\
  exists p_loop w_loop l p' w',
    for_each (range 0 10)
             (child_step (Some 0) (inject_Z 1) (inject_Z 0) (inject_Z 70))
             (example_parent RUNNING) (constant_world 0%Q) =
      (Returns p_loop, w_loop) /\
    exchanges w_loop = exchanges (constant_world 0%Q) ++ l /\
    creations l = 10 /\
    Forall updates_only_failed l /\
    create_child_steps (example_parent RUNNING) (Some 0) (inject_Z 1)
                       (inject_Z 0) (inject_Z 70) (constant_world 0%Q) =
      (Returns p', w') /\
    close_parent_step p_loop w_loop = (Returns p', w') /\
    status p' = spec_finalize (status p_loop) /\
    (statusType (status p_loop) = "RUNNING" ->
     exchanges w' =
       exchanges w_loop ++
       [UpdateSteps [set_status PASSED p_loop]
                    (Some [set_status PASSED p_loop])]) /\
    (statusType (status p_loop) <> "RUNNING" ->
     p' = p_loop /\ w' = w_loop) /\
    close_parent_step p' w' = (Returns p', w').
Proof.
  apply (create_child_steps_finalizes_once
           (example_parent RUNNING) (Some 0) (inject_Z 1) (inject_Z 0)
           (inject_Z 70) (constant_world 0%Q)); reflexivity.
Defined.

(** ** What the store is told about each entity *)

Lemma entity_eqb_eq (a b : Entity) : entity_eqb a b = true <-> a = b.
Proof.
  destruct a, b; simpl; try (split; [discriminate | discriminate]);
    rewrite Nat.eqb_eq; split; congruence.
Qed.

Lemma written_to_app (e : Entity) (l1 l2 : list Exchange) :
  written_to e (l1 ++ l2) = written_to e l1 ++ written_to e l2.
Proof.
  unfold written_to. rewrite flat_map_app, filter_app, map_app. reflexivity.
Qed.

Lemma written_to_create_step (e : Entity) (sent : list Step) (s : Step) (i : Id) :
  stepId s = Some i ->
  written_to e [CreateSteps sent (Some [s])] =
  if entity_eqb (StepE i) e then [statusType (status s)] else [].
Proof.
  intros H. unfold written_to. simpl. rewrite H. simpl.
  change (match e with ResultE _ => false | StepE j => Nat.eqb i j end)
    with (entity_eqb (StepE i) e).
  destruct (entity_eqb (StepE i) e); reflexivity.
Qed.

Lemma written_to_update_step (e : Entity) (s : Step) (i : Id) reply :
  stepId s = Some i ->
  written_to e [UpdateSteps [s] (Some reply)] =
  if entity_eqb (StepE i) e then [statusType (status s)] else [].
Proof.
  intros H. unfold written_to. simpl. rewrite H. simpl.
  change (match e with ResultE _ => false | StepE j => Nat.eqb i j end)
    with (entity_eqb (StepE i) e).
  destruct (entity_eqb (StepE i) e); reflexivity.
Qed.

Lemma never_overwritten_snoc (ws : list string) (s : string) :
  never_overwritten ws = true ->
  (forall t, In t ws -> terminal t = true -> t = s) ->
  never_overwritten (ws ++ [s]) = true.
Proof.
  induction ws as [|t ws IH]; intros Hws Hall; simpl.
  - rewrite orb_true_r. reflexivity.
  - simpl in Hws. apply andb_true_iff in Hws. destruct Hws as [Ht Hws].
    apply andb_true_iff. split.
    + apply orb_true_iff in Ht. apply orb_true_iff.
      destruct Ht as [Ht | Ht]; [left; exact Ht|].
      destruct (terminal t) eqn:Et; [right | left; reflexivity].
      rewrite forallb_app, Ht. simpl.
      rewrite (Hall t (or_introl eq_refl) Et), String.eqb_refl. reflexivity.
    + apply IH; [exact Hws|]. intros u Hu. apply Hall. right. exact Hu.
Qed.

Lemma never_overwritten_prefix (a b : list string) :
  never_overwritten (a ++ b) = true -> never_overwritten a = true.
Proof.
  induction a as [|t a IH]; intros H; [reflexivity|].
  simpl in *. apply andb_true_iff in H. destruct H as [Ht H].
  apply andb_true_iff. split; [|apply IH; exact H].
  apply orb_true_iff in Ht. apply orb_true_iff.
  destruct Ht as [Ht | Ht]; [left; exact Ht | right].
  rewrite forallb_app in Ht. apply andb_true_iff in Ht. apply Ht.
Qed.

(** The meaning of [never_overwritten]: a status written after a terminal
    status is that status. *)
Lemma never_overwritten_spec (ws : list string) :
  never_overwritten ws = true ->
  forall pre s mid t post,
    ws = pre ++ s :: mid ++ t :: post -> terminal s = true -> t = s.
Proof.
  intros H pre. revert ws H.
  induction pre as [|p pre IH]; intros ws H s mid t post E Hs; subst ws.
  - simpl in H. apply andb_true_iff in H. destruct H as [H _].
    rewrite Hs in H. simpl in H.
    rewrite forallb_app in H. apply andb_true_iff in H. destruct H as [_ H].
    simpl in H. apply andb_true_iff in H. destruct H as [H _].
    apply String.eqb_eq in H. congruence.
  - simpl in H. apply andb_true_iff in H. destruct H as [_ H].
    exact (IH _ H s mid t post eq_refl Hs).
Qed.

(** ** The invariant of the sweep *)

Lemma created_parent_app (rid pid : Id) (l1 l2 : list Exchange) :
  created_parent rid pid l1 -> created_parent rid pid (l1 ++ l2).
Proof.
  intros (sent & reply & s & Hin & H).
  exists sent, reply, s. split; [apply in_or_app; left; exact Hin | exact H].
Qed.

Lemma identity_ok_snoc (rid : Id) (l pre : list Exchange) (x : Exchange) :
  identity_ok rid pre l -> creation_ok rid (pre ++ l) x ->
  identity_ok rid pre (l ++ [x]).
Proof.
  revert pre. induction l as [|y l IH]; intros pre Hl Hx; simpl in *.
  - rewrite app_nil_r in Hx. split; [exact Hx | exact I].
  - destruct Hl as [Hy Hl]. split; [exact Hy|].
    apply IH; [exact Hl|]. rewrite <- app_assoc. exact Hx.
Qed.

Lemma identity_ok_split (rid : Id) (l pre before : list Exchange)
    (x : Exchange) (after : list Exchange) :
  identity_ok rid pre l -> l = before ++ x :: after ->
  creation_ok rid (pre ++ before) x.
Proof.
  revert pre l. induction before as [|y before IH]; intros pre l Hl E; subst l.
  - rewrite app_nil_r. exact (proj1 Hl).
  - destruct Hl as [_ Hl].
    specialize (IH (pre ++ [y]) _ Hl eq_refl).
    rewrite <- app_assoc in IH. exact IH.
Qed.

Lemma fresh_S (n : Id) (e : Entity) : fresh (S n) e -> fresh n e.
Proof. destruct e; simpl; lia. Qed.

Lemma fresh_not_assigned (n i : Id) (e : Entity) :
  fresh n e -> i < n -> entity_eqb (StepE i) e = false.
Proof.
  intros Hf Hi. destruct e as [j | j]; simpl; [reflexivity|].
  simpl in Hf. apply Nat.eqb_neq. lia.
Qed.

(** Creating a step keeps the invariant: the identity it gets is new. *)
Lemma sweep_inv_create (rid n : Id) (l : list Exchange) (s : Step) :
  sweep_inv rid n l -> submitted_ok rid l s ->
  sweep_inv rid (S n)
            (l ++ [CreateSteps [s] (Some [set_stepId (Some n) s])]).
Proof.
  intros (Hacc & Hid & Hnov & Hfresh) Hs.
  split; [|split; [|split]].
  - apply Forall_app. split; [exact Hacc | repeat constructor].
  - apply identity_ok_snoc; [exact Hid|]. simpl.
    apply Forall_cons; [exact Hs | apply Forall_nil].
  - intros e. rewrite written_to_app.
    rewrite (written_to_create_step e [s] (set_stepId (Some n) s) n eq_refl).
    destruct (entity_eqb (StepE n) e) eqn:E.
    + apply entity_eqb_eq in E. subst e.
      rewrite (Hfresh (StepE n)) by (simpl; lia). simpl.
      rewrite orb_true_r. reflexivity.
    + rewrite app_nil_r. apply Hnov.
  - intros e He. rewrite written_to_app.
    rewrite (written_to_create_step e [s] (set_stepId (Some n) s) n eq_refl).
    rewrite (fresh_not_assigned (S n) n e He) by lia.
    rewrite app_nil_r. apply Hfresh. apply fresh_S. exact He.
Qed.

Lemma parent_inv_create (rid n : Id) (l : list Exchange) (p s : Step) :
  parent_inv rid n l p ->
  parent_inv rid (S n)
             (l ++ [CreateSteps [s] (Some [set_stepId (Some n) s])]) p.
Proof.
  intros (pid & Hp & Hlt & Hcr & Hw).
  exists pid. split; [exact Hp|]. split; [lia|].
  split; [apply created_parent_app; exact Hcr|].
  intros t. rewrite written_to_app.
  rewrite (written_to_create_step _ [s] (set_stepId (Some n) s) n eq_refl).
  replace (entity_eqb (StepE n) (StepE pid)) with false
    by (symmetry; apply Nat.eqb_neq; lia).
  rewrite app_nil_r. apply Hw.
Qed.

(** A newly created sequence step is the parent of its group. *)
Lemma parent_inv_new (rid n : Id) (l : list Exchange) (s : Step) :
  sweep_inv rid n l ->
  resultId s = Some rid -> stepType s = "SequenceCall" ->
  statusType (status s) = "RUNNING" ->
  parent_inv rid (S n)
             (l ++ [CreateSteps [s] (Some [set_stepId (Some n) s])])
             (set_stepId (Some n) s).
Proof.
  intros (_ & _ & _ & Hfresh) Hr Hty Hst.
  exists n. split; [reflexivity|]. split; [lia|]. split.
  - exists [s], [set_stepId (Some n) s], (set_stepId (Some n) s).
    split; [apply in_or_app; right; left; reflexivity|].
    split; [left; reflexivity|]. repeat split; assumption.
  - intros t. rewrite written_to_app.
    rewrite (written_to_create_step _ [s] (set_stepId (Some n) s) n eq_refl).
    rewrite (Hfresh (StepE n)) by (simpl; lia).
    simpl. rewrite Nat.eqb_refl. simpl.
    intros [<- | []]. left. exact Hst.
Qed.

(** Updating a step keeps the invariant when every terminal status written
    to it before is the status now sent. *)
Lemma sweep_inv_update (rid n pid : Id) (l : list Exchange) (q : Step) :
  sweep_inv rid n l ->
  stepId q = Some pid -> pid < n ->
  (forall t, In t (written_to (StepE pid) l) -> terminal t = true ->
             t = statusType (status q)) ->
  sweep_inv rid n (l ++ [UpdateSteps [q] (Some [q])]).
Proof.
  intros (Hacc & Hid & Hnov & Hfresh) Hq Hlt Hw.
  split; [|split; [|split]].
  - apply Forall_app. split; [exact Hacc | repeat constructor].
  - apply identity_ok_snoc; [exact Hid | exact I].
  - intros e. rewrite written_to_app.
    rewrite (written_to_update_step e q pid [q] Hq).
    destruct (entity_eqb (StepE pid) e) eqn:E.
    + apply entity_eqb_eq in E. subst e.
      apply never_overwritten_snoc; [apply Hnov | exact Hw].
    + rewrite app_nil_r. apply Hnov.
  - intros e He. rewrite written_to_app.
    rewrite (written_to_update_step e q pid [q] Hq).
    rewrite (fresh_not_assigned n pid e He Hlt).
    rewrite app_nil_r. apply Hfresh. exact He.
Qed.

Lemma invariants_update_failed (rid n : Id) (l : list Exchange) (p : Step) :
  sweep_inv rid n l -> parent_inv rid n l p ->
  sweep_inv rid n (l ++ [UpdateSteps [set_status FAILED p]
                                     (Some [set_status FAILED p])]) /\
  parent_inv rid n (l ++ [UpdateSteps [set_status FAILED p]
                                      (Some [set_status FAILED p])])
             (set_status FAILED p).
Proof.
  intros Hs (pid & Hp & Hlt & Hcr & Hw). split.
  - apply (sweep_inv_update rid n pid); [exact Hs | exact Hp | exact Hlt |].
    intros t Ht Hterm. destruct (Hw t Ht) as [-> | [-> _]];
      [discriminate | reflexivity].
  - exists pid. split; [exact Hp|]. split; [exact Hlt|].
    split; [apply created_parent_app; exact Hcr|].
    intros t. rewrite written_to_app.
    rewrite (written_to_update_step _ (set_status FAILED p) pid _ Hp).
    simpl. rewrite Nat.eqb_refl. intros Ht.
    apply in_app_or in Ht. destruct Ht as [Ht | [<- | []]].
    + destruct (Hw t Ht) as [-> | [-> _]]; [left | right]; auto.
    + right. auto.
Qed.

Lemma sweep_inv_update_passed (rid n : Id) (l : list Exchange) (p : Step) :
  sweep_inv rid n l -> parent_inv rid n l p ->
  statusType (status p) = "RUNNING" ->
  sweep_inv rid n (l ++ [UpdateSteps [set_status PASSED p]
                                     (Some [set_status PASSED p])]).
Proof.
  intros Hs (pid & Hp & Hlt & Hcr & Hw) Hrun.
  apply (sweep_inv_update rid n pid); [exact Hs | exact Hp | exact Hlt |].
  intros t Ht Hterm. destruct (Hw t Ht) as [-> | [_ Hf]];
    [discriminate | rewrite Hrun in Hf; discriminate].
Qed.

(** ** Running a group and the whole sweep *)

Lemma create_parent_step_run (result_id : option Id) (w : World) :
  is_set result_id = true ->
  create_parent_step result_id w =
  (Returns (set_stepId (Some (next_id w)) (parent_step_data result_id w)),
   answered (after_draws 1 w)
            (CreateSteps [parent_step_data result_id w]
               (Some [set_stepId (Some (next_id w))
                                 (parent_step_data result_id w)])) 1).
Proof.
  intros Hr. unfold create_parent_step. unfold bind at 1.
  rewrite generate_step_data_run. unfold bind.
  rewrite create_steps_run by exact Hr. reflexivity.
Qed.

Lemma parent_inv_is_set (rid n : Id) (l : list Exchange) (p : Step) :
  parent_inv rid n l p -> is_set (stepId p) = true.
Proof. intros (pid & Hp & _). rewrite Hp. reflexivity. Qed.

Lemma child_step_keeps_group_inv
    (base : list Exchange) (rid : Id) (k : nat) (current lo hi : Q)
    (voltage : Z) (p : Step) (w : World) :
  group_inv base rid k p w ->
  exists p' w',
    child_step (Some rid) current lo hi voltage p w = (Returns p', w') /\
    group_inv base rid (k + 1) p' w'.
Proof.
  intros (l & El & Hs & Hk & Hp).
  pose proof (child_step_run (Some rid) current lo hi voltage p w eq_refl
                             (parent_inv_is_set _ _ _ _ Hp)) as Hrun.
  cbv zeta in Hrun.
  set (leaf := leaf_step (Some rid) current lo hi voltage p w) in *.
  assert (Hleaf : submitted_ok rid l leaf).
  { split; [reflexivity|]. destruct Hp as (pid & Hpid & _ & Hcr & _).
    simpl. rewrite Hpid. exact Hcr. }
  pose proof (sweep_inv_create rid (next_id w) l leaf Hs Hleaf) as Hs1.
  pose proof (parent_inv_create rid (next_id w) l p leaf Hp) as Hp1.
  destruct (statusType (status leaf) =? "FAILED").
  - destruct (invariants_update_failed _ _ _ _ Hs1 Hp1) as [Hs2 Hp2].
    eexists _, _. split; [exact Hrun|].
    eexists. simpl. rewrite El, <- !app_assoc, !Nat.add_0_r, Nat.add_1_r.
    split; [reflexivity|]. rewrite app_assoc.
    split; [exact Hs2|]. split; [|exact Hp2].
    rewrite !creations_app, Hk. cbn. lia.
  - eexists _, _. split; [exact Hrun|].
    eexists. simpl. rewrite El, <- !app_assoc, Nat.add_1_r.
    split; [reflexivity|]. split; [exact Hs1|]. split; [|exact Hp1].
    rewrite creations_app, Hk. cbn. lia.
Qed.

Lemma create_child_steps_keeps_world_inv
    (base : list Exchange) (rid : Id) (k : nat) (current lo hi : Q)
    (p : Step) (w : World) :
  group_inv base rid k p w ->
  exists p' w',
    create_child_steps p (Some rid) current lo hi w = (Returns p', w') /\
    world_inv base rid (k + 10) w'.
Proof.
  intros Hg.
  destruct (for_each_invariant
              (fun done => group_inv base rid (k + List.length done))
              (child_step (Some rid) current lo hi)) with
      (xs := range 0 10) (done := @nil Z) (s := p) (w := w)
    as (p1 & w1 & E1 & (l & El & Hs & Hk & Hp)).
  { intros done x s w0 H. rewrite length_app, Nat.add_assoc.
    apply child_step_keeps_group_inv. exact H. }
  { simpl. rewrite Nat.add_0_r. exact Hg. }
  change (List.length ([] ++ range 0 10)) with 10 in Hk.
  unfold create_child_steps, bind. rewrite E1.
  rewrite close_parent_step_run by exact (parent_inv_is_set _ _ _ _ Hp).
  destruct (statusType (status p1) =? "RUNNING") eqn:Erun.
  - apply String.eqb_eq in Erun.
    eexists _, _. split; [reflexivity|].
    eexists. simpl. rewrite El, <- app_assoc, Nat.add_0_r.
    split; [reflexivity|].
    split; [apply sweep_inv_update_passed; assumption|].
    rewrite creations_app, Hk. cbn. lia.
  - exists p1, w1. split; [reflexivity|]. exists l.
    split; [exact El|]. split; assumption.
Qed.

Lemma sweep_group_keeps_world_inv
    (base : list Exchange) (rid : Id) (k : nat) (test_result : Result)
    (lo hi : Q) (current : Z) (w : World) :
  r_id test_result = Some rid ->
  world_inv base rid k w ->
  exists w',
    sweep_group test_result lo hi current tt w = (Returns tt, w') /\
    world_inv base rid (k + 11) w'.
Proof.
  intros Hr (l & El & Hs & Hk).
  unfold sweep_group. unfold bind at 1. rewrite Hr.
  rewrite create_parent_step_run by reflexivity.
  set (s := parent_step_data (Some rid) w).
  assert (Hsub : submitted_ok rid l s).
  { split; [reflexivity|]. simpl. discriminate. }
  assert (Hg : group_inv base rid (k + 1) (set_stepId (Some (next_id w)) s)
                 (answered (after_draws 1 w)
                    (CreateSteps [s]
                       (Some [set_stepId (Some (next_id w)) s])) 1)).
  { eexists. simpl. rewrite El, <- app_assoc, Nat.add_1_r.
    split; [reflexivity|]. split; [|split].
    - apply sweep_inv_create; assumption.
    - rewrite creations_app, Hk. cbn. lia.
    - apply parent_inv_new; [exact Hs | reflexivity ..]. }
  destruct (create_child_steps_keeps_world_inv
              base rid (k + 1) (inject_Z current) lo hi _ _ Hg)
    as (p' & w' & E & Hw).
  exists w'. split.
  - unfold bind. rewrite E. reflexivity.
  - replace (k + 11) with (k + 1 + 10) by lia. exact Hw.
Qed.

Lemma create_results_run (serial now : string) (w : World) :
  create_results [initial_result serial now] w =
  (Returns [set_r_id (Some (next_id w)) (initial_result serial now)],
   answered w (CreateResults
                 [initial_result serial now]
                 (Some [set_r_id (Some (next_id w))
                                 (initial_result serial now)])) 1).
Proof. reflexivity. Qed.

Lemma update_results_run (r : Result) (w : World) :
  is_set (r_id r) = true ->
  update_results [r] w =
  (Returns [r], answered w (UpdateResults [r] (Some [r])) 0).
Proof.
  intros H. unfold update_results. simpl. rewrite H. reflexivity.
Qed.

Lemma sweep_inv_nil (rid n : Id) : sweep_inv rid n [].
Proof. repeat split. constructor. Qed.

(** The whole sweep: it always returns; it creates the result, exchanges
    steps only, and ends with one update of the result as the store
    returned it at creation. *)
Lemma main_try_run (serial now : string) (w : World) :
  let r := set_r_id (Some (next_id w)) (initial_result serial now) in
  exists l w',
    main_try serial now w = (Returns r, w') /\
    exchanges w' =
      exchanges w ++
      CreateResults [initial_result serial now] (Some [r]) ::
      l ++ [UpdateResults [r] (Some [r])] /\
    sweep_inv (next_id w) (next_id w') l /\
    creations l = 110.
Proof.
  intros r.
  set (w1 := answered w (CreateResults [initial_result serial now]
                                       (Some [r])) 1).
  assert (Hw1 : world_inv (exchanges w1) (next_id w) 0 w1).
  { exists []. rewrite app_nil_r.
    split; [reflexivity|]. split; [apply sweep_inv_nil | reflexivity]. }
  destruct (for_each_invariant
              (fun done (_ : unit) =>
                 world_inv (exchanges w1) (next_id w)
                           (11 * List.length done))
              (sweep_group r (inject_Z 0) (inject_Z 70))) with
      (xs := range 0 10) (done := @nil Z) (s := tt) (w := w1)
    as ([] & w2 & E2 & (l & El & Hs & Hk)).
  { intros done x [] w0 H.
    destruct (sweep_group_keeps_world_inv
                (exchanges w1) (next_id w) _ r (inject_Z 0) (inject_Z 70)
                x w0 eq_refl H) as (w' & E & H').
    exists tt, w'. split; [exact E|].
    rewrite length_app. simpl List.length.
    replace (11 * (List.length done + 1)) with (11 * List.length done + 11)
      by lia.
    exact H'. }
  { exact Hw1. }
  exists l. eexists. split; [|split; [|split]].
  - unfold main_try. cbv zeta.
    change (mkResult None "Power Test" (mkStatus "RUNNING" "Running") None
                     None None serial "John Smith" "NI-ABC-123-PWR1" None
                     now 0%Q) with (initial_result serial now).
    unfold bind at 1. rewrite create_results_run.
    unfold bind at 1. unfold first at 1, ret at 1.
    unfold bind at 1. fold r. fold w1. rewrite E2.
    unfold bind. rewrite update_results_run by reflexivity. reflexivity.
  - simpl. rewrite El. subst w1. simpl. rewrite <- !app_assoc. reflexivity.
  - simpl. rewrite Nat.add_0_r. exact Hs.
  - exact Hk.
Qed.

Lemma main_returns (serial now : string) (w : World) :
  main serial now w = (Returns tt, snd (main_try serial now w)).
Proof.
  destruct (main_try_run serial now w) as (l & w' & E & _).
  unfold main. rewrite E. reflexivity.
Qed.

(** ** The final update of the result *)

(** C1, as stated, fails.  With no loss at all the group of 9 A ends with
    its parent failed (the update of step 100 is the exchange before the
    last), and the final update of the result still carries the running
    status, not the failed one. *)
Lemma result_update_keeps_running_after_failed_parent :
  exists p r,
    fst (main "serial" "now" (constant_world 0%Q)) = Returns tt /\
    List.length (exchanges (snd (main "serial" "now" (constant_world 0%Q))))
      = 123 /\
    nth_error (exchanges (snd (main "serial" "now" (constant_world 0%Q))))
              121 = Some (UpdateSteps [p] (Some [p])) /\
    stepType p = "SequenceCall" /\ status p = FAILED /\
    nth_error (exchanges (snd (main "serial" "now" (constant_world 0%Q))))
              122 = Some (UpdateResults [r] (Some [r])) /\
    r_status r = RUNNING /\ r_status r <> FAILED.
Proof.
  do 2 eexists.
  split; [vm_compute; reflexivity|].
  split; [vm_compute; reflexivity|].
  split; [vm_compute; reflexivity|].
  split; [reflexivity|]. split; [reflexivity|].
  split; [vm_compute; reflexivity|].
  split; [reflexivity | discriminate].
Qed.

(** C1, amended.  [main] always returns.  After the creation of the
    result, the ten groups exchange steps only (110 creations, every call
    accepted); the last exchange of the sweep is one [update_results] call
    that carries the result exactly as the store returned it at creation,
    its status still running: the script folds no parent status into
    it. *)
Theorem main_submits_result_as_created (serial now : string) (w : World) :
  exists r l w',
    r = set_r_id (Some (next_id w)) (initial_result serial now) /\
    main serial now w = (Returns tt, w') /\
    exchanges w' =
      exchanges w ++
      CreateResults [initial_result serial now] (Some [r]) ::
      l ++ [UpdateResults [r] (Some [r])] /\
    Forall accepted_step_exchange l /\
    creations l = 110 /\
    r_status r = RUNNING.
Proof.
  destruct (main_try_run serial now w) as (l & w' & E & El & Hs & Hk).
  eexists _, l, w'. split; [reflexivity|].
  split; [rewrite main_returns, E; reflexivity|].
  split; [exact El|]. split; [exact (proj1 Hs)|].
  split; [exact Hk | reflexivity].
Qed.

(** A sweep in which every draw is 1 (the largest loss) has no failing
    child: 122 exchanges, and the ten parent updates all carry passed. *)
Example sweep_without_failure :
  let w' := snd (main "serial" "now" (constant_world 1%Q)) in
  List.length (exchanges w') = 122 /\
  creations (exchanges w') = 110 /\
  flat_map (fun x => match x with
                     | UpdateSteps sent _ => map status sent
                     | _ => []
                     end) (exchanges w') = repeat PASSED 10 /\
  printed w' = [].
Proof. vm_compute. repeat split. Qed.

(** ** Terminal statuses *)

Lemma written_to_create_result (e : Entity) (r0 r : Result) (rid : Id) :
  r_id r = Some rid ->
  written_to e [CreateResults [r0] (Some [r])] =
  if entity_eqb (ResultE rid) e then [statusType (r_status r)] else [].
Proof.
  intros H. unfold written_to. simpl. rewrite H. simpl.
  change (match e with ResultE j => Nat.eqb rid j | StepE _ => false end)
    with (entity_eqb (ResultE rid) e).
  destruct (entity_eqb (ResultE rid) e); reflexivity.
Qed.

Lemma written_to_update_result (e : Entity) (r : Result) (rid : Id) reply :
  r_id r = Some rid ->
  written_to e [UpdateResults [r] (Some reply)] =
  if entity_eqb (ResultE rid) e then [statusType (r_status r)] else [].
Proof.
  intros H. unfold written_to. simpl. rewrite H. simpl.
  change (match e with ResultE j => Nat.eqb rid j | StepE _ => false end)
    with (entity_eqb (ResultE rid) e).
  destruct (entity_eqb (ResultE rid) e); reflexivity.
Qed.

(** C6.  In every state the sweep reaches (after any number [reached] of
    its exchanges), for every step and for the result: a status written
    after a terminal status of that entity is that same status.  So a
    parent to which failed was written is never written passed. *)
Theorem terminal_status_is_never_overwritten
    (serial now : string) (w : World) :
  exists added w',
    main serial now w = (Returns tt, w') /\
    exchanges w' = exchanges w ++ added /\
    forall reached later e,
      added = reached ++ later ->
      never_overwritten (written_to e reached) = true /\
      forall pre s mid t post,
        written_to e reached = pre ++ s :: mid ++ t :: post ->
        terminal s = true -> t = s.
Proof.
  destruct (main_try_run serial now w) as (l & w' & E & El & Hs & _).
  cbv zeta in E, El.
  set (r := set_r_id (Some (next_id w)) (initial_result serial now)) in *.
  eexists _, w'. split; [rewrite main_returns, E; reflexivity|].
  split; [exact El|].
  assert (Hall : forall e,
    never_overwritten
      (written_to e (CreateResults [initial_result serial now] (Some [r]) ::
                     l ++ [UpdateResults [r] (Some [r])])) = true).
  { intros e.
    change (CreateResults [initial_result serial now] (Some [r]) ::
            l ++ [UpdateResults [r] (Some [r])])
      with ([CreateResults [initial_result serial now] (Some [r])] ++
            l ++ [UpdateResults [r] (Some [r])]).
    rewrite !written_to_app.
    rewrite (written_to_create_result e _ r (next_id w) eq_refl).
    rewrite (written_to_update_result e r (next_id w) _ eq_refl).
    destruct Hs as (_ & _ & Hnov & Hfresh).
    destruct e as [i | i].
    - rewrite (Hfresh (ResultE i) I). simpl.
      destruct (Nat.eqb (next_id w) i); reflexivity.
    - simpl. rewrite app_nil_r. apply Hnov. }
  intros reached later e Eadd.
  assert (Hreached : never_overwritten (written_to e reached) = true).
  { specialize (Hall e). rewrite Eadd, written_to_app in Hall.
    exact (never_overwritten_prefix _ _ Hall). }
  split; [exact Hreached|].
  exact (never_overwritten_spec _ Hreached).
Qed.

(** ** Identities *)

(** C9.  Every step the sweep submits for creation carries the identity
    the store assigned to the result; every measurement step carries as
    [parentId] the identity the store assigned to a sequence step of the
    same result created before it, and a step names no other parent. *)
Theorem submitted_steps_carry_assigned_identities
    (serial now : string) (w : World) :
  exists rid r l w',
    main serial now w = (Returns tt, w') /\
    exchanges w' =
      exchanges w ++ CreateResults [initial_result serial now] (Some [r]) :: l /\
    r_id r = Some rid /\
    forall before sent reply after s,
      l = before ++ CreateSteps sent reply :: after -> In s sent ->
      resultId s = Some rid /\
      (stepType s = "NumericLimit" ->
       exists pid, parentId s = Some pid /\ created_parent rid pid before) /\
      (forall pid, parentId s = Some pid -> created_parent rid pid before).
Proof.
  destruct (main_try_run serial now w) as (l & w' & E & El & Hs & _).
  cbv zeta in E, El.
  set (r := set_r_id (Some (next_id w)) (initial_result serial now)) in *.
  exists (next_id w), r, (l ++ [UpdateResults [r] (Some [r])]), w'.
  split; [rewrite main_returns, E; reflexivity|].
  split; [exact El|]. split; [reflexivity|].
  intros before sent reply after s El' Hin.
  destruct Hs as (_ & Hid & _ & _).
  pose proof (identity_ok_snoc (next_id w) l []
                (UpdateResults [r] (Some [r])) Hid I) as Hid'.
  pose proof (identity_ok_split _ _ _ _ _ _ Hid' El') as Hx.
  simpl in Hx. rewrite Forall_forall in Hx.
  destruct (Hx s Hin) as [Hr Hp].
  split; [exact Hr|]. split.
  - intros Hty. destruct (parentId s) as [pid|].
    + exists pid. split; [reflexivity | exact Hp].
    + contradiction.
  - intros pid Epid. rewrite Epid in Hp. exact Hp.
Qed.

(** * Further properties of the script *)

(** ** One iteration of the child loop *)

(** Everything one iteration does, for a parent and a result with
    identities. *)
Lemma child_step_effect
    (result_id : option Id) (current lo hi : Q) (voltage : Z)
    (p : Step) (w : World) :
  is_set result_id = true -> is_set (stepId p) = true ->
  exists p' w' ups,
    child_step result_id current lo hi voltage p w = (Returns p', w') /\
    exchanges w' =
      exchanges w ++
      CreateSteps [leaf_step result_id current lo hi voltage p w]
        (Some [set_stepId (Some (next_id w))
                 (leaf_step result_id current lo hi voltage p w)]) :: ups /\
    ((status (leaf_step result_id current lo hi voltage p w) = FAILED /\
      p' = set_status FAILED p /\
      ups = [UpdateSteps [set_status FAILED p]
                         (Some [set_status FAILED p])]) \/
     (status (leaf_step result_id current lo hi voltage p w) = PASSED /\
      p' = p /\ ups = [])) /\
    drawn w' = 3 + drawn w /\ next_id w' = S (next_id w) /\
    uniform_draws w' = uniform_draws w /\ printed w' = printed w.
Proof.
  intros Hr Hp.
  pose proof (child_step_run result_id current lo hi voltage p w Hr Hp)
    as Hrun.
  cbv zeta in Hrun.
  set (leaf := leaf_step result_id current lo hi voltage p w) in *.
  destruct (power_status_two (measured_power current (inject_Z voltage) w)
                             lo hi) as [E | E];
    change (power_status (measured_power current (inject_Z voltage) w) lo hi)
      with (status leaf) in E; rewrite E in Hrun; simpl in Hrun.
  - eexists _, _, []. split; [exact Hrun|]. simpl.
    split; [reflexivity|]. split; [right; auto|].
    repeat split. apply Nat.add_1_r.
  - eexists _, _, [_]. split; [exact Hrun|]. simpl.
    split; [rewrite <- app_assoc; reflexivity|]. split; [left; auto|].
    repeat split. rewrite Nat.add_0_r. apply Nat.add_1_r.
Qed.

(** X1.  The measurement step an iteration submits is consistent with
    itself: its single comparison entry carries the status of the step,
    the limits of the test and the comparison kind GELE, its measurement
    is the power recorded as the output, the inputs echo current and
    voltage, and the entry is passed exactly when the measurement lies
    within the closed interval of the limits. *)
Theorem child_step_leaf_is_consistent
    (result_id : option Id) (current lo hi : Q) (voltage : Z)
    (parent_step : Step) (w : World)
    (Hr : is_set result_id = true)
    (Hp : is_set (stepId parent_step) = true) :
  exists parent' w' leaf reply updates m,
    child_step result_id current lo hi voltage parent_step w =
      (Returns parent', w') /\
    exchanges w' =
      exchanges w ++ CreateSteps [leaf] (Some reply) :: updates /\
    data leaf = Some (mkStepData "" [m]) /\
    p_status m = statusType (status leaf) /\
    p_lowLimit m = lo /\ p_highLimit m = hi /\ p_comparisonType m = "GELE" /\
    p_units m = "Watts" /\
    outputs leaf = Some [mkNamedValue "power" (p_measurement m)] /\
    inputs leaf = Some [mkNamedValue "current" current;
                        mkNamedValue "voltage" (inject_Z voltage)] /\
    (p_status m = "PASSED" <->
     (lo <= p_measurement m)%Q /\ (p_measurement m <= hi)%Q) /\
    (p_status m = "FAILED" <->
     (p_measurement m < lo)%Q \/ (hi < p_measurement m)%Q).
Proof.
  destruct (child_step_effect result_id current lo hi voltage parent_step w
                              Hr Hp)
    as (p' & w' & ups & E & El & _).
  eexists p', w', _, _, ups, _. split; [exact E|]. split; [exact El|].
  split; [reflexivity|]. simpl.
  set (m := measured_power current (inject_Z voltage) w).
  repeat (split; [reflexivity|]).
  destruct (power_status_cases m lo hi) as [(H1 & H2 & H) | (H1 & H)];
    rewrite H; simpl; split; split; try discriminate; auto.
  - intros [Hlt | Hlt]; exfalso;
      [exact (Qlt_not_le _ _ Hlt H1) | exact (Qlt_not_le _ _ Hlt H2)].
  - intros [H2 H3]. exfalso.
    destruct H1 as [Hlt | Hlt];
      [exact (Qlt_not_le _ _ Hlt H2) | exact (Qlt_not_le _ _ Hlt H3)].
Qed.

Lemma child_step_leaf_is_consistent_witness :
  exists parent' w' leaf reply updates m,
    child_step (Some 0) (inject_Z 9) (inject_Z 0) (inject_Z 70) 9
               (example_parent RUNNING) (constant_world 0%Q) =
      (Returns parent', w') /\
    exchanges w' =
      exchanges (constant_world 0%Q) ++
      CreateSteps [leaf] (Some reply) :: updates /\
    data leaf = Some (mkStepData "" [m]) /\
    p_status m = statusType (status leaf) /\
    p_lowLimit m = inject_Z 0 /\ p_highLimit m = inject_Z 70 /\
    p_comparisonType m = "GELE" /\
    p_units m = "Watts" /\
    outputs leaf = Some [mkNamedValue "power" (p_measurement m)] /\
    inputs leaf = Some [mkNamedValue "current" (inject_Z 9);
                        mkNamedValue "voltage" (inject_Z 9)] /\
    (p_status m = "PASSED" <->
     (inject_Z 0 <= p_measurement m)%Q /\ (p_measurement m <= inject_Z 70)%Q) /\
    (p_status m = "FAILED" <->
     (p_measurement m < inject_Z 0)%Q \/ (inject_Z 70 < p_measurement m)%Q).
Proof.
  apply (child_step_leaf_is_consistent
           (Some 0) (inject_Z 9) (inject_Z 0) (inject_Z 70) 9
           (example_parent RUNNING) (constant_world 0%Q)); reflexivity.
Defined.

(** ** Which children can fail *)

Lemma measured_power_bounds (current voltage : Q) (w : World) :
  (0 <= current)%Q -> (0 <= voltage)%Q ->
  (0 <= uniform_draws w (drawn w))%Q /\ (uniform_draws w (drawn w) <= 1)%Q ->
  (0 <= uniform_draws w (S (drawn w)))%Q /\
  (uniform_draws w (S (drawn w)) <= 1)%Q ->
  (0 <= measured_power current voltage w)%Q /\
  (measured_power current voltage w <= current * voltage)%Q.
Proof.
  intros Hc Hv [H1a H1b] [H2a H2b]. unfold measured_power.
  set (cl := (1 - uniform_draws w (drawn w) * (1 # 4))%Q).
  set (vl := (1 - uniform_draws w (S (drawn w)) * (1 # 4))%Q).
  assert (Hcl1 : ((3 # 4) <= cl)%Q) by (unfold cl; lra).
  assert (Hcl2 : (cl <= 1)%Q) by (unfold cl; lra).
  assert (Hvl1 : ((3 # 4) <= vl)%Q) by (unfold vl; lra).
  assert (Hvl2 : (vl <= 1)%Q) by (unfold vl; lra).
  assert (Ha : (current * cl <= current)%Q) by nra.
  assert (Ha0 : (0 <= current * cl)%Q) by nra.
  assert (Hb : (current * cl * voltage <= current * voltage)%Q) by nra.
  assert (Hb0 : (0 <= current * cl * voltage)%Q) by nra.
  assert (Hd : (current * cl * voltage * vl <= current * cl * voltage)%Q)
    by nra.
  assert (Hd0 : (0 <= current * cl * voltage * vl)%Q) by nra.
  split; lra.
Qed.

Lemma inject_Z_nonneg (z : Z) : (0 <= z)%Z -> (0 <= inject_Z z)%Q.
Proof. intros H. unfold Qle. simpl. lia. Qed.

(** X2.  A child whose ideal power, current times voltage, does not exceed
    the high limit cannot fail when the low limit is not positive and the
    two draws are in [[0, 1]]: the iteration creates a passed step, sends
    no update and returns the parent untouched.  (In the sweep of [main]
    only the children at 8 A and 9 V, 9 A and 8 V, 9 A and 9 V have an
    ideal power above 70.) *)
Theorem child_step_passes_within_ideal_power
    (result_id : option Id) (current lo hi : Q) (voltage : Z)
    (parent_step : Step) (w : World)
    (Hr : is_set result_id = true)
    (Hp : is_set (stepId parent_step) = true)
    (Hc : (0 <= current)%Q) (Hv : (0 <= voltage)%Z)
    (H1 : (0 <= uniform_draws w (drawn w))%Q /\
          (uniform_draws w (drawn w) <= 1)%Q)
    (H2 : (0 <= uniform_draws w (S (drawn w)))%Q /\
          (uniform_draws w (S (drawn w)) <= 1)%Q)
    (Hlo : (lo <= 0)%Q)
    (Hhi : (current * inject_Z voltage <= hi)%Q) :
  exists w' leaf reply,
    child_step result_id current lo hi voltage parent_step w =
      (Returns parent_step, w') /\
    exchanges w' = exchanges w ++ [CreateSteps [leaf] (Some reply)] /\
    status leaf = PASSED.
Proof.
  destruct (child_step_effect result_id current lo hi voltage parent_step w
                              Hr Hp)
    as (p' & w' & ups & E & El & Hcase & _).
  destruct (measured_power_bounds current (inject_Z voltage) w Hc
              (inject_Z_nonneg voltage Hv) H1 H2) as [Hm0 Hm1].
  destruct Hcase as [(Hst & _) | (Hst & -> & ->)].
  - exfalso. simpl in Hst.
    destruct (power_status_cases
                (measured_power current (inject_Z voltage) w) lo hi)
      as [(_ & _ & H) | ([H | H] & _)].
    + rewrite H in Hst. discriminate.
    + lra.
    + lra.
  - eexists w', _, _. split; [exact E|]. split; [exact El | exact Hst].
Qed.

Lemma child_step_passes_within_ideal_power_witness :
  exists w' leaf reply,
    child_step (Some 0) (inject_Z 7) (inject_Z 0) (inject_Z 70) 9
               (example_parent RUNNING) (constant_world 0%Q) =
      (Returns (example_parent RUNNING), w') /\
    exchanges w' =
      exchanges (constant_world 0%Q) ++ [CreateSteps [leaf] (Some reply)] /\
    status leaf = PASSED.
Proof.
  apply (child_step_passes_within_ideal_power
           (Some 0) (inject_Z 7) (inject_Z 0) (inject_Z 70) 9
           (example_parent RUNNING) (constant_world 0%Q));
    try reflexivity; try lia; simpl; unfold Qle; simpl; lia.
Defined.

(** X3.  A child with no current or no voltage measures no power, whatever
    the two draws are (also outside [[0, 1]]): when the limits enclose 0
    the iteration creates a passed step whose measurement is 0, sends no
    update and returns the parent untouched.  So the first child of every
    group, and every child of the group of 0 A, passes. *)
Theorem child_step_passes_without_stimulus
    (result_id : option Id) (current lo hi : Q) (voltage : Z)
    (parent_step : Step) (w : World)
    (Hr : is_set result_id = true)
    (Hp : is_set (stepId parent_step) = true)
    (Hzero : (current == 0)%Q \/ voltage = 0%Z)
    (Hlo : (lo <= 0)%Q) (Hhi : (0 <= hi)%Q) :
  exists w' leaf reply power,
    child_step result_id current lo hi voltage parent_step w =
      (Returns parent_step, w') /\
    exchanges w' = exchanges w ++ [CreateSteps [leaf] (Some reply)] /\
    status leaf = PASSED /\
    outputs leaf = Some [mkNamedValue "power" power] /\ (power == 0)%Q.
Proof.
  destruct (child_step_effect result_id current lo hi voltage parent_step w
                              Hr Hp)
    as (p' & w' & ups & E & El & Hcase & _).
  assert (Hm : (measured_power current (inject_Z voltage) w == 0)%Q).
  { unfold measured_power. destruct Hzero as [Hz | ->].
    - rewrite Hz. ring.
    - change (inject_Z 0) with 0%Q. ring. }
  destruct Hcase as [(Hst & _) | (Hst & -> & ->)].
  - exfalso. simpl in Hst.
    destruct (power_status_cases
                (measured_power current (inject_Z voltage) w) lo hi)
      as [(_ & _ & H) | ([H | H] & _)].
    + rewrite H in Hst. discriminate.
    + rewrite Hm in H. exact (Qlt_not_le _ _ H Hlo).
    + rewrite Hm in H. exact (Qlt_not_le _ _ H Hhi).
  - eexists w', _, _, _. split; [exact E|]. split; [exact El|].
    split; [exact Hst|]. split; [reflexivity | exact Hm].
Qed.

Lemma child_step_passes_without_stimulus_witness :
  exists w' leaf reply power,
    child_step (Some 0) (inject_Z 9) (inject_Z 0) (inject_Z 70) 0
               (example_parent RUNNING) (constant_world (5 # 1)) =
      (Returns (example_parent RUNNING), w') /\
    exchanges w' =
      exchanges (constant_world (5 # 1)) ++
      [CreateSteps [leaf] (Some reply)] /\
    status leaf = PASSED /\
    outputs leaf = Some [mkNamedValue "power" power] /\ (power == 0)%Q.
Proof.
  apply (child_step_passes_without_stimulus
           (Some 0) (inject_Z 9) (inject_Z 0) (inject_Z 70) 0
           (example_parent RUNNING) (constant_world (5 # 1)));
    try reflexivity; [right; reflexivity | | ]; unfold Qle; simpl; lia.
Defined.

(** ** The child loop as a whole *)

Lemma submitted_app (l1 l2 : list Exchange) :
  submitted (l1 ++ l2) = submitted l1 ++ submitted l2.
Proof. unfold submitted. apply flat_map_app. Qed.

Lemma written_to_cons (e : Entity) (x : Exchange) (l : list Exchange) :
  written_to e (x :: l) = written_to e [x] ++ written_to e l.
Proof. exact (written_to_app e [x] l). Qed.

Lemma set_status_FAILED_if (b : bool) (p : Step) :
  set_status FAILED (if b then set_status FAILED p else p) =
  set_status FAILED p.
Proof. destruct b; reflexivity. Qed.

Lemma stepId_if (b : bool) (p : Step) :
  stepId (if b then set_status FAILED p else p) = stepId p.
Proof. destruct b; reflexivity. Qed.

(** Everything the loop over the voltages [vs] does. *)
Lemma child_loop_effect
    (result_id : option Id) (current lo hi : Q) (vs : list Z)
    (p : Step) (w : World) :
  is_set result_id = true -> is_set (stepId p) = true ->
  exists p' w' l,
    for_each vs (child_step result_id current lo hi) p w = (Returns p', w') /\
    exchanges w' = exchanges w ++ l /\
    p' = (if existsb failed_creation l then set_status FAILED p else p) /\
    Forall (group_exchange result_id p) l /\
    map inputs (submitted l) =
      map (fun v => Some [mkNamedValue "current" current;
                          mkNamedValue "voltage" (inject_Z v)]) vs /\
    drawn w' = 3 * List.length vs + drawn w /\
    next_id w' = List.length vs + next_id w /\
    uniform_draws w' = uniform_draws w /\ printed w' = printed w /\
    (forall pid, stepId p = Some pid -> pid < next_id w ->
       last (written_to (StepE pid) l) (statusType (status p)) =
       statusType (status p')).
Proof.
  intros Hr Hp.
  pose (I := fun (done : list Z) (s : Step) (w1 : World) =>
    exists l,
      exchanges w1 = exchanges w ++ l /\
      s = (if existsb failed_creation l then set_status FAILED p else p) /\
      Forall (group_exchange result_id p) l /\
      map inputs (submitted l) =
        map (fun v => Some [mkNamedValue "current" current;
                            mkNamedValue "voltage" (inject_Z v)]) done /\
      drawn w1 = 3 * List.length done + drawn w /\
      next_id w1 = List.length done + next_id w /\
      uniform_draws w1 = uniform_draws w /\ printed w1 = printed w /\
      (forall pid, stepId p = Some pid -> pid < next_id w ->
         last (written_to (StepE pid) l) (statusType (status p)) =
         statusType (status s))).
  assert (Hbody : forall done x s w1, I done s w1 ->
            exists s' w', child_step result_id current lo hi x s w1 =
                            (Returns s', w') /\ I (done ++ [x]) s' w').
  { intros done x s w1 (l & El & Es & Hall & Hin & Hd & Hn & Ht & Hpr & Hm).
    assert (Hs : is_set (stepId s) = true)
      by (rewrite Es, stepId_if; exact Hp).
    destruct (child_step_effect result_id current lo hi x s w1 Hr Hs)
      as (s' & w' & ups & E & El' & Hcase & Hd' & Hn' & Ht' & Hpr').
    set (leaf := leaf_step result_id current lo hi x s w1) in *.
    exists s', w'. split; [exact E|].
    exists (l ++ CreateSteps [leaf] (Some [set_stepId (Some (next_id w1)) leaf])
              :: ups).
    assert (Hleaf : forall st, status leaf = st ->
              (st = PASSED \/ st = FAILED) ->
              group_exchange result_id p
                (CreateSteps [leaf]
                   (Some [set_stepId (Some (next_id w1)) leaf]))).
    { intros st Hst Hor. simpl.
      split; [reflexivity|]. split; [discriminate|].
      split; [reflexivity|].
      split; [rewrite Es; apply stepId_if|].
      split; [reflexivity|]. split; [reflexivity|]. split; [reflexivity|].
      split; [discriminate|].
      change (power_status
                (measured_power current (inject_Z x) w1) lo hi)
        with (status leaf).
      rewrite Hst. exact Hor. }
    split; [rewrite El', El, <- app_assoc; reflexivity|].
    assert (Hcount :
      drawn w' = 3 * List.length (done ++ [x]) + drawn w /\
      next_id w' = List.length (done ++ [x]) + next_id w /\
      uniform_draws w' = uniform_draws w /\ printed w' = printed w).
    { rewrite length_app. simpl List.length.
      rewrite Hd', Hn', Ht', Hpr', Hd, Hn, Ht, Hpr.
      repeat split; lia. }
    assert (Hfresh : forall pid, pid < next_id w ->
      written_to (StepE pid)
        [CreateSteps [leaf] (Some [set_stepId (Some (next_id w1)) leaf])]
      = []).
    { intros pid Hlt.
      rewrite (written_to_create_step
                 _ [leaf] (set_stepId (Some (next_id w1)) leaf)
                 (next_id w1) eq_refl).
      simpl. replace (Nat.eqb (next_id w1) pid) with false; [reflexivity|].
      symmetry. apply Nat.eqb_neq. lia. }
    assert (Hinp : inputs leaf =
                   Some [mkNamedValue "current" current;
                         mkNamedValue "voltage" (inject_Z x)])
      by reflexivity.
    clearbody leaf.
    destruct Hcase as [(Hst & -> & ->) | (Hst & -> & ->)].
    - (* the child failed *)
      split.
      { rewrite existsb_app. simpl. rewrite Hst. simpl.
        rewrite orb_true_r, Es. apply set_status_FAILED_if. }
      split.
      { apply Forall_app. split; [exact Hall|].
        constructor; [exact (Hleaf FAILED Hst (or_intror eq_refl))|].
        constructor; [|constructor]. simpl.
        split; [reflexivity|]. rewrite Es. apply set_status_FAILED_if. }
      split.
      { rewrite submitted_app, map_app, Hin, map_app. simpl.
        rewrite Hinp. reflexivity. }
      split; [exact (proj1 Hcount)|].
      split; [exact (proj1 (proj2 Hcount))|].
      split; [exact (proj1 (proj2 (proj2 Hcount)))|].
      split; [exact (proj2 (proj2 (proj2 Hcount)))|].
      intros pid Hpid Hlt.
      rewrite written_to_app, written_to_cons, (Hfresh pid Hlt).
      rewrite (written_to_update_step _ (set_status FAILED s) pid _)
        by (simpl; rewrite Es, stepId_if; exact Hpid).
      simpl. rewrite Nat.eqb_refl. apply last_last.
    - (* the child passed *)
      split.
      { rewrite existsb_app. simpl. rewrite Hst. simpl.
        rewrite !orb_false_r. exact Es. }
      split.
      { apply Forall_app. split; [exact Hall|].
        constructor; [exact (Hleaf PASSED Hst (or_introl eq_refl))|].
        constructor. }
      split.
      { rewrite submitted_app, map_app, Hin, map_app. simpl.
        rewrite Hinp. reflexivity. }
      split; [exact (proj1 Hcount)|].
      split; [exact (proj1 (proj2 Hcount))|].
      split; [exact (proj1 (proj2 (proj2 Hcount)))|].
      split; [exact (proj2 (proj2 (proj2 Hcount)))|].
      intros pid Hpid Hlt.
      rewrite written_to_app, (Hfresh pid Hlt), app_nil_r.
      exact (Hm pid Hpid Hlt). }
  destruct (for_each_invariant I _ Hbody vs [] p w) as (p' & w' & E & HI).
  { exists []. rewrite app_nil_r. simpl. repeat split. constructor. }
  destruct HI as (l & HI). exists p', w', l. split; [exact E | exact HI].
Qed.

(** Everything [create_child_steps] does: the loop, then the closing
    update if the parent is still running. *)
Lemma create_child_steps_effect
    (p : Step) (result_id : option Id) (current lo hi : Q) (w : World) :
  is_set result_id = true -> is_set (stepId p) = true ->
  exists p1 p' w' l ups,
    create_child_steps p result_id current lo hi w = (Returns p', w') /\
    exchanges w' = exchanges w ++ l ++ ups /\
    p1 = (if existsb failed_creation l then set_status FAILED p else p) /\
    Forall (group_exchange result_id p) l /\
    map inputs (submitted l) =
      map (fun v => Some [mkNamedValue "current" current;
                          mkNamedValue "voltage" (inject_Z v)])
          (range 0 10) /\
    ((statusType (status p1) = "RUNNING" /\ p' = set_status PASSED p1 /\
      ups = [UpdateSteps [set_status PASSED p1]
                         (Some [set_status PASSED p1])]) \/
     (statusType (status p1) <> "RUNNING" /\ p' = p1 /\ ups = [])) /\
    drawn w' = 30 + drawn w /\ next_id w' = 10 + next_id w /\
    uniform_draws w' = uniform_draws w /\ printed w' = printed w /\
    (forall pid, stepId p = Some pid -> pid < next_id w ->
       last (written_to (StepE pid) l) (statusType (status p)) =
       statusType (status p1)).
Proof.
  intros Hr Hp.
  destruct (child_loop_effect result_id current lo hi (range 0 10) p w Hr Hp)
    as (p1 & w1 & l & E & El & Ep & Hall & Hin & Hd & Hn & Ht & Hpr & Hm).
  assert (Hp1 : is_set (stepId p1) = true)
    by (rewrite Ep, stepId_if; exact Hp).
  pose proof (close_parent_step_run p1 w1 Hp1) as Hclose.
  change (List.length (range 0 10)) with 10 in Hd, Hn.
  destruct (statusType (status p1) =? "RUNNING") eqn:Erun.
  - apply String.eqb_eq in Erun.
    exists p1. eexists _, _, l, [_].
    split; [unfold create_child_steps, bind; rewrite E; exact Hclose|].
    simpl. rewrite El, Nat.add_0_r, <- app_assoc.
    split; [reflexivity|]. split; [exact Ep|]. split; [exact Hall|].
    split; [exact Hin|]. split; [left; auto|].
    repeat split; assumption.
  - apply String.eqb_neq in Erun.
    exists p1, p1, w1, l, [].
    split; [unfold create_child_steps, bind; rewrite E; exact Hclose|].
    rewrite app_nil_r.
    split; [exact El|]. split; [exact Ep|]. split; [exact Hall|].
    split; [exact Hin|]. split; [right; auto|].
    repeat split; assumption.
Qed.




(** X5.  The store and the script agree on the parent: the status the
    store was last told for the parent during [create_child_steps] (the
    status on entry, if it was told none) is the status of the parent the
    function returns.  The parent must have been created before, so that
    no child gets its identity. *)
Theorem create_child_steps_store_agrees
    (parent_step : Step) (pid : Id) (result_id : option Id)
    (current lo hi : Q) (w : World)
    (Hr : is_set result_id = true)
    (Hp : stepId parent_step = Some pid)
    (Hlt : pid < next_id w) :
  exists p' w' l,
    create_child_steps parent_step result_id current lo hi w =
      (Returns p', w') /\
    exchanges w' = exchanges w ++ l /\
    last (written_to (StepE pid) l) (statusType (status parent_step)) =
    statusType (status p').
Proof.
  assert (Hset : is_set (stepId parent_step) = true)
    by (rewrite Hp; reflexivity).
  destruct (create_child_steps_effect parent_step result_id current lo hi w
                                      Hr Hset)
    as (p1 & p' & w' & l & ups & E & El & Ep & _ & _ & Hcase & _ & _ & _ & _
        & Hm).
  exists p', w', (l ++ ups). split; [exact E|]. split; [exact El|].
  destruct Hcase as [(Hrun & -> & ->) | (Hrun & -> & ->)].
  - rewrite written_to_app.
    rewrite (written_to_update_step _ (set_status PASSED p1) pid _)
      by (simpl; rewrite Ep, stepId_if; exact Hp).
    simpl. rewrite Nat.eqb_refl. apply last_last.
  - rewrite app_nil_r. exact (Hm pid Hp Hlt).
Qed.

Lemma create_child_steps_store_agrees_witness :
  exists p' w' l,
    create_child_steps (example_parent RUNNING) (Some 0) (inject_Z 9)
                       (inject_Z 0) (inject_Z 70) example_world =
      (Returns p', w') /\
    exchanges w' = exchanges example_world ++ l /\
    last (written_to (StepE 1) l)
         (statusType (status (example_parent RUNNING))) =
    statusType (status p').
Proof.
  apply (create_child_steps_store_agrees
           (example_parent RUNNING) 1 (Some 0) (inject_Z 9) (inject_Z 0)
           (inject_Z 70) example_world); [reflexivity | reflexivity |].
  simpl. lia.
Defined.

Lemma group_exchange_submitted (rid : option Id) (p : Step)
    (l : list Exchange) :
  Forall (group_exchange rid p) l ->
  Forall (fun s => stepId s = None /\ parentId s = stepId p /\
                   resultId s = rid /\ stepType s = "NumericLimit")
         (submitted l).
Proof.
  induction 1 as [|x l Hx _ IH]; [constructor|].
  change (x :: l) with ([x] ++ l). rewrite submitted_app.
  apply Forall_app. split; [|exact IH].
  destruct x as [? ? | ? ? | sent reply | sent reply]; simpl in *;
    try contradiction; try constructor.
  destruct sent as [|s [|? ?]]; try contradiction.
  destruct reply as [[|s' [|? ?]]|]; try contradiction.
  destruct Hx as (_ & _ & H1 & H2 & H3 & H4 & _).
  constructor; [auto | constructor].
Qed.

(** X6.  [create_child_steps] submits exactly ten steps for creation, one
    per voltage 0, 1, ..., 9 in this order, each echoing the current and
    its voltage as inputs; each is a measurement step without identity of
    its own that names the parent and the result it was given. *)
Theorem create_child_steps_submits_each_voltage
    (parent_step : Step) (result_id : option Id) (current lo hi : Q)
    (w : World)
    (Hr : is_set result_id = true)
    (Hp : is_set (stepId parent_step) = true) :
  exists p' w' l,
    create_child_steps parent_step result_id current lo hi w =
      (Returns p', w') /\
    exchanges w' = exchanges w ++ l /\
    map inputs (submitted l) =
      map (fun v => Some [mkNamedValue "current" current;
                          mkNamedValue "voltage" (inject_Z v)])
          [0; 1; 2; 3; 4; 5; 6; 7; 8; 9]%Z /\
    Forall (fun s => stepId s = None /\ parentId s = stepId parent_step /\
                     resultId s = result_id /\ stepType s = "NumericLimit")
           (submitted l).
Proof.
  destruct (create_child_steps_effect parent_step result_id current lo hi w
                                      Hr Hp)
    as (p1 & p' & w' & l & ups & E & El & _ & Hall & Hin & Hcase & _).
  exists p', w', (l ++ ups). split; [exact E|]. split; [exact El|].
  assert (Hups : submitted ups = []).
  { destruct Hcase as [(_ & _ & ->) | (_ & _ & ->)]; reflexivity. }
  rewrite submitted_app, Hups, app_nil_r.
  split; [exact Hin|]. apply group_exchange_submitted. exact Hall.
Qed.

Lemma create_child_steps_submits_each_voltage_witness :
  exists p' w' l,
    create_child_steps (example_parent RUNNING) (Some 0) (inject_Z 9)
                       (inject_Z 0) (inject_Z 70) example_world =
      (Returns p', w') /\
    exchanges w' = exchanges example_world ++ l /\
    map inputs (submitted l) =
      map (fun v => Some [mkNamedValue "current" (inject_Z 9);
                          mkNamedValue "voltage" (inject_Z v)])
          [0; 1; 2; 3; 4; 5; 6; 7; 8; 9]%Z /\
    Forall (fun s => stepId s = None /\
                     parentId s = stepId (example_parent RUNNING) /\
                     resultId s = Some 0 /\ stepType s = "NumericLimit")
           (submitted l).
Proof.
  apply (create_child_steps_submits_each_voltage
           (example_parent RUNNING) (Some 0) (inject_Z 9) (inject_Z 0)
           (inject_Z 70) example_world); reflexivity.
Defined.

(** ** Rejected calls *)

(** X7.  Without a result identity nothing is created: the store rejects
    the parent that [create_parent_step] submits, and it rejects the first
    child that [create_child_steps] submits.  The exception leaves the
    loop at once: only the first voltage has been measured, no identity
    has been assigned, and the parent is neither updated nor closed. *)
Theorem creation_without_result_id_aborts
    (parent_step : Step) (current lo hi : Q) (w : World) :
  (exists w' s,
     create_parent_step None w = (Raises "rejected", w') /\
     exchanges w' = exchanges w ++ [CreateSteps [s] None] /\
     next_id w' = next_id w /\ drawn w' = 1 + drawn w) /\
  (exists w' leaf,
     create_child_steps parent_step None current lo hi w =
       (Raises "rejected", w') /\
     exchanges w' = exchanges w ++ [CreateSteps [leaf] None] /\
     inputs leaf = Some [mkNamedValue "current" current;
                         mkNamedValue "voltage" (inject_Z 0)] /\
     next_id w' = next_id w /\ drawn w' = 3 + drawn w).
Proof.
  split.
  - exists (answered (after_draws 1 w)
                     (CreateSteps [parent_step_data None w] None) 0),
           (parent_step_data None w).
    split; [reflexivity|]. simpl.
    repeat split. apply Nat.add_0_r.
  - exists (answered (after_draws 3 w)
                     (CreateSteps
                        [leaf_step None current lo hi 0 parent_step w]
                        None) 0),
           (leaf_step None current lo hi 0 parent_step w).
    split; [reflexivity|]. simpl.
    repeat split. apply Nat.add_0_r.
Qed.

(** X8.  No rollback: when the parent has no identity and the child
    measures outside the limits, the iteration first creates the child
    (accepted, with an identity, but without [parentId]) and then fails to
    update the parent; the exception leaves the created child in the
    store. *)
Theorem child_step_leaves_child_when_update_fails
    (result_id : option Id) (current lo hi : Q) (voltage : Z)
    (parent_step : Step) (w : World)
    (Hr : is_set result_id = true)
    (Hp : stepId parent_step = None)
    (Hout : (measured_power current (inject_Z voltage) w < lo)%Q \/
            (hi < measured_power current (inject_Z voltage) w)%Q) :
  exists w' leaf,
    child_step result_id current lo hi voltage parent_step w =
      (Raises "rejected", w') /\
    exchanges w' =
      exchanges w ++
      [CreateSteps [leaf] (Some [set_stepId (Some (next_id w)) leaf]);
       UpdateSteps [set_status FAILED parent_step] None] /\
    parentId leaf = None /\ status leaf = FAILED /\
    next_id w' = S (next_id w).
Proof.
  assert (Hst : power_status (measured_power current (inject_Z voltage) w)
                             lo hi = FAILED).
  { destruct (power_status_cases
                (measured_power current (inject_Z voltage) w) lo hi)
      as [(H1 & H2 & _) | (_ & H)]; [|exact H].
    exfalso. destruct Hout as [H | H];
      [exact (Qlt_not_le _ _ H H1) | exact (Qlt_not_le _ _ H H2)]. }
  exists (answered
            (answered (after_draws 3 w)
               (CreateSteps
                  [leaf_step result_id current lo hi voltage parent_step w]
                  (Some [set_stepId (Some (next_id w))
                           (leaf_step result_id current lo hi voltage
                                      parent_step w)])) 1)
            (UpdateSteps [set_status FAILED parent_step] None) 0),
         (leaf_step result_id current lo hi voltage parent_step w).
  split.
  - unfold child_step. unfold bind at 1. rewrite measure_power_run.
    unfold bind at 1. rewrite generate_step_data_run.
    unfold bind at 1. rewrite create_steps_run by exact Hr.
    unfold bind at 1. unfold first at 1. unfold ret at 1.
    unfold leaf_step. cbv zeta. rewrite Hst. simpl.
    unfold bind. rewrite update_step_status_unfold. simpl.
    rewrite Hp. reflexivity.
  - simpl. rewrite <- app_assoc, Hp, Nat.add_0_r, Nat.add_1_r.
    repeat split. exact Hst.
Qed.

Lemma child_step_leaves_child_when_update_fails_witness :
  exists w' leaf,
    child_step (Some 0) (inject_Z 9) (inject_Z 0) (inject_Z 70) 9
               (parent_step_data (Some 0) (constant_world 0%Q))
               (constant_world 0%Q) =
      (Raises "rejected", w') /\
    exchanges w' =
      exchanges (constant_world 0%Q) ++
      [CreateSteps [leaf]
         (Some [set_stepId (Some (next_id (constant_world 0%Q))) leaf]);
       UpdateSteps
         [set_status FAILED (parent_step_data (Some 0) (constant_world 0%Q))]
         None] /\
    parentId leaf = None /\ status leaf = FAILED /\
    next_id w' = S (next_id (constant_world 0%Q)).
Proof.
  apply (child_step_leaves_child_when_update_fails
           (Some 0) (inject_Z 9) (inject_Z 0) (inject_Z 70) 9
           (parent_step_data (Some 0) (constant_world 0%Q))
           (constant_world 0%Q)); [reflexivity | reflexivity |].
  right. vm_compute. reflexivity.
Defined.

(** ** The sweep as a whole *)






(** ** A group that cannot fail *)

Lemma for_each_invariant_in {A S : Type}
    (I : list A -> S -> World -> Prop) (body : A -> S -> M S)
    (xs : list A) :
  (forall done x s w, In x xs -> I done s w ->
     exists s' w', body x s w = (Returns s', w') /\ I (done ++ [x]) s' w') ->
  forall done s w, I done s w ->
    exists s' w',
      for_each xs body s w = (Returns s', w') /\ I (done ++ xs) s' w'.
Proof.
  induction xs as [|x xs IH]; intros Hbody done s w HI.
  - exists s, w. rewrite app_nil_r. split; [reflexivity | exact HI].
  - destruct (Hbody done x s w (or_introl eq_refl) HI)
      as (s1 & w1 & E1 & HI1).
    destruct (IH (fun d y t v Hy => Hbody d y t v (or_intror Hy))
                 (done ++ [x]) s1 w1 HI1) as (s2 & w2 & E2 & HI2).
    exists s2, w2. split.
    + simpl. unfold bind. rewrite E1. exact E2.
    + rewrite <- app_assoc in HI2. exact HI2.
Qed.

Lemma range_0_10_bounds (v : Z) : In v (range 0 10) -> (0 <= v <= 9)%Z.
Proof. unfold range. simpl. intuition lia. Qed.

Lemma inject_Z_le (a b : Z) : (a <= b)%Z -> (inject_Z a <= inject_Z b)%Q.
Proof. intros H. unfold Qle. simpl. lia. Qed.

(** X11.  A group whose largest ideal power, current times 9 V, does not
    exceed the high limit always passes when the low limit is not positive
    and all draws are in [[0, 1]]: [create_child_steps] creates ten steps,
    none of them failed, sends the single update that passes the parent,
    and returns the parent as passed.  (In [main] these are the groups of
    0 A to 7 A.) *)
Theorem create_child_steps_passes_within_ideal_power
    (parent_step : Step) (result_id : option Id) (current lo hi : Q)
    (w : World)
    (Hr : is_set result_id = true)
    (Hp : is_set (stepId parent_step) = true)
    (Hrun : statusType (status parent_step) = "RUNNING")
    (Hc : (0 <= current)%Q)
    (Hlo : (lo <= 0)%Q)
    (Hhi : (current * inject_Z 9 <= hi)%Q)
    (Hdraws : forall n, (0 <= uniform_draws w n)%Q /\
                        (uniform_draws w n <= 1)%Q) :
  exists w' l,
    create_child_steps parent_step result_id current lo hi w =
      (Returns (set_status PASSED parent_step), w') /\
    exchanges w' =
      exchanges w ++
      l ++ [UpdateSteps [set_status PASSED parent_step]
                        (Some [set_status PASSED parent_step])] /\
    creations l = 10 /\
    Forall (fun x => is_create_steps x = true) l /\
    existsb failed_creation l = false.
Proof.
  pose (I := fun (done : list Z) (s : Step) (w1 : World) =>
    s = parent_step /\ uniform_draws w1 = uniform_draws w /\
    exists l, exchanges w1 = exchanges w ++ l /\
              creations l = List.length done /\
              Forall (fun x => is_create_steps x = true) l /\
              existsb failed_creation l = false).
  destruct (for_each_invariant_in I
              (child_step result_id current lo hi) (range 0 10)) with
      (done := @nil Z) (s := parent_step) (w := w)
    as (p1 & w1 & E & -> & _ & l & El & Hk & Hall & Hnone).
  { intros done x s w1 Hx (-> & Ht & l & El & Hk & Hall & Hnone).
    destruct (child_step_effect result_id current lo hi x parent_step w1
                                Hr Hp)
      as (s' & w' & ups & E & El' & Hcase & _ & _ & Ht' & _).
    destruct (range_0_10_bounds x Hx) as [Hx0 Hx9].
    assert (Hd1 : (0 <= uniform_draws w1 (drawn w1))%Q /\
                  (uniform_draws w1 (drawn w1) <= 1)%Q)
      by (rewrite Ht; apply Hdraws).
    assert (Hd2 : (0 <= uniform_draws w1 (S (drawn w1)))%Q /\
                  (uniform_draws w1 (S (drawn w1)) <= 1)%Q)
      by (rewrite Ht; apply Hdraws).
    destruct (measured_power_bounds current (inject_Z x) w1 Hc
                (inject_Z_nonneg x Hx0) Hd1 Hd2) as [Hm0 Hm1].
    pose proof (inject_Z_le x 9 Hx9) as Hx9q.
    pose proof (inject_Z_nonneg x Hx0) as Hx0q.
    assert (Hle : (current * inject_Z x <= hi)%Q) by nra.
    destruct Hcase as [(Hst & _) | (Hst & -> & ->)].
    - exfalso. simpl in Hst.
      destruct (power_status_cases
                  (measured_power current (inject_Z x) w1) lo hi)
        as [(_ & _ & H) | ([H | H] & _)].
      + rewrite H in Hst. discriminate.
      + lra.
      + lra.
    - exists parent_step, w'. split; [exact E|].
      split; [reflexivity|]. split; [congruence|].
      eexists (l ++ [_]). rewrite El', El, <- app_assoc.
      split; [reflexivity|].
      split; [rewrite creations_app, length_app, Hk; reflexivity|].
      split; [apply Forall_app; split; [exact Hall | repeat constructor]|].
      rewrite existsb_app, Hnone. cbn [existsb failed_creation orb].
      rewrite Hst. reflexivity. }
  { split; [reflexivity|]. split; [reflexivity|].
    exists []. rewrite app_nil_r. repeat split. constructor. }
  exists (answered w1 (UpdateSteps [set_status PASSED parent_step]
                                   (Some [set_status PASSED parent_step])) 0),
         l.
  split.
  - unfold create_child_steps, bind. rewrite E.
    rewrite close_parent_step_run by exact Hp.
    rewrite Hrun. reflexivity.
  - simpl. rewrite El, <- app_assoc.
    split; [reflexivity|]. split; [exact Hk|]. split; assumption.
Qed.

Lemma create_child_steps_passes_within_ideal_power_witness :
  exists w' l,
    create_child_steps (example_parent RUNNING) (Some 0) (inject_Z 7)
                       (inject_Z 0) (inject_Z 70) example_world =
      (Returns (set_status PASSED (example_parent RUNNING)), w') /\
    exchanges w' =
      exchanges example_world ++
      l ++ [UpdateSteps [set_status PASSED (example_parent RUNNING)]
                        (Some [set_status PASSED (example_parent RUNNING)])] /\
    creations l = 10 /\
    Forall (fun x => is_create_steps x = true) l /\
    existsb failed_creation l = false.
Proof.
  apply (create_child_steps_passes_within_ideal_power
           (example_parent RUNNING) (Some 0) (inject_Z 7) (inject_Z 0)
           (inject_Z 70) example_world);
    try reflexivity; try (unfold Qle; simpl; lia).
Defined.

(** ** The range of the measurement *)

(** X12.  For a current and a voltage that are not negative and two draws
    in [[0, 1]], the power [measure_power] returns is at least 9/16 of the
    product of current and voltage; it is that product itself when both
    draws are 0, and 9/16 of it when both draws are 1.  The call consumes
    two draws, records current and voltage as inputs and the power as the
    only output. *)
Theorem measure_power_range (w : World) (current voltage : Q)
    (Hc : (0 <= current)%Q) (Hv : (0 <= voltage)%Q)
    (H1 : (0 <= uniform_draws w (drawn w))%Q /\
          (uniform_draws w (drawn w) <= 1)%Q)
    (H2 : (0 <= uniform_draws w (S (drawn w)))%Q /\
          (uniform_draws w (S (drawn w)) <= 1)%Q) :
  exists power,
    measure_power current voltage w =
      (Returns (power,
                [mkNamedValue "current" current;
                 mkNamedValue "voltage" voltage],
                [mkNamedValue "power" power]),
       after_draws 2 w) /\
    ((9 # 16) * (current * voltage) <= power)%Q /\
    ((uniform_draws w (drawn w) == 0)%Q ->
     (uniform_draws w (S (drawn w)) == 0)%Q ->
     (power == current * voltage)%Q) /\
    ((uniform_draws w (drawn w) == 1)%Q ->
     (uniform_draws w (S (drawn w)) == 1)%Q ->
     (power == (9 # 16) * (current * voltage))%Q).
Proof.
  exists (measured_power current voltage w).
  split; [apply measure_power_run|].
  unfold measured_power.
  set (u1 := uniform_draws w (drawn w)) in *.
  set (u2 := uniform_draws w (S (drawn w))) in *.
  destruct H1 as [H1a H1b], H2 as [H2a H2b].
  split; [|split].
  - set (cl := (1 - u1 * (1 # 4))%Q).
    set (vl := (1 - u2 * (1 # 4))%Q).
    assert (Hcl : ((3 # 4) <= cl)%Q) by (unfold cl; lra).
    assert (Hvl : ((3 # 4) <= vl)%Q) by (unfold vl; lra).
    assert (Hcv : (0 <= current * voltage)%Q) by nra.
    assert (Ha : ((3 # 4) * (current * voltage) <= current * voltage * cl)%Q)
      by nra.
    assert (Ha0 : (0 <= current * voltage * cl)%Q) by nra.
    assert (Hb : ((3 # 4) * (current * voltage * cl)
                  <= current * voltage * cl * vl)%Q) by nra.
    assert (E : (current * cl * voltage * vl
                 == current * voltage * cl * vl)%Q) by ring.
    rewrite E. lra.
  - intros E1 E2. rewrite E1, E2. ring.
  - intros E1 E2. rewrite E1, E2. ring.
Qed.

Lemma measure_power_range_witness :
  exists power,
    measure_power (inject_Z 9) (inject_Z 9) (constant_world 1%Q) =
      (Returns (power,
                [mkNamedValue "current" (inject_Z 9);
                 mkNamedValue "voltage" (inject_Z 9)],
                [mkNamedValue "power" power]),
       after_draws 2 (constant_world 1%Q)) /\
    ((9 # 16) * (inject_Z 9 * inject_Z 9) <= power)%Q /\
    ((1 == 0)%Q -> (1 == 0)%Q -> (power == inject_Z 9 * inject_Z 9)%Q) /\
    ((1 == 1)%Q -> (1 == 1)%Q ->
     (power == (9 # 16) * (inject_Z 9 * inject_Z 9))%Q).
Proof.
  apply (measure_power_range (constant_world 1%Q) (inject_Z 9) (inject_Z 9));
    simpl; unfold Qle; simpl; lia.
Defined.

(** X13.  A step built by [generate_step_data] has no identity at all
    ([stepId], [parentId] and [resultId] are unset), carries the status it
    was given, or running if it was given none, and for a draw in
    [[0, 1]] its elapsed time lies between 0 and 10 seconds. *)
Theorem generate_step_data_fresh_step
    (nm ty : string) (i o : option (list NamedValue))
    (p : option StepData) (st : option Status) (w : World)
    (Hdraw : (0 <= uniform_draws w (drawn w))%Q /\
             (uniform_draws w (drawn w) <= 1)%Q) :
  exists s,
    generate_step_data nm ty i o p st w = (Returns s, after_draws 1 w) /\
    stepId s = None /\ parentId s = None /\ resultId s = None /\
    status s = match st with Some x => x | None => RUNNING end /\
    (0 <= totalTimeInSeconds s)%Q /\ (totalTimeInSeconds s <= 10)%Q.
Proof.
  eexists. split; [apply generate_step_data_run|]. simpl.
  destruct Hdraw as [H0 H1].
  repeat split; lra.
Qed.

Lemma generate_step_data_fresh_step_witness :
  exists s,
    generate_step_data "Voltage Sweep" "SequenceCall" None None None None
                       (constant_world (1 # 2)) =
      (Returns s, after_draws 1 (constant_world (1 # 2))) /\
    stepId s = None /\ parentId s = None /\ resultId s = None /\
    status s = RUNNING /\
    (0 <= totalTimeInSeconds s)%Q /\ (totalTimeInSeconds s <= 10)%Q.
Proof.
  apply (generate_step_data_fresh_step
           "Voltage Sweep" "SequenceCall" None None None None
           (constant_world (1 # 2))).
  simpl. split; unfold Qle; simpl; lia.
Defined.
